(** * WebRTC-GAS client: a shallow embedding of [src/webrtc-gas.js]

    The file models the [Client] class of the library: registration with
    the GAS signalling endpoint, the polling tick, the offer / answer / ICE
    handlers and the three recovery routines.

    Modelling conventions.

    - A JavaScript value that may be [null] or [undefined] is an [option];
      truthiness of such a string is [truthy] below.  A string is the
      sequence of the bytes of its UTF-8 text; a JSON number is an integer.
    - [await e] on a call to a collaborator (the endpoint, the peer
      connection, the timeout) is a suspension point.  The outcome of the
      awaited call is taken from the world's inbox; when the inbox is empty
      the call never settles and the operation stalls there for ever
      ([Stall]).  At every suspension point the client as other code could
      observe it is appended to the trace ([Await]).  An [await] on one of
      the client's own methods adds no wait of its own.
    - One operation runs at a time: the user's calls, the timer's ticks and
      the transport's callbacks are separate steps, and a step runs to
      completion (or stalls) before the next one starts.
    - The trace records every call the client makes on its collaborators
      ([fetch], the peer connection, the data channel, the timers), every
      call of [emit] and the [console.warn] / [console.error] of the catch
      blocks; informational [console.log] calls are left out.  Listeners
      registered with [on] are opaque to the client; the emitter that calls
      them is modelled on its own, in [EventEmitter]. *)

From Stdlib Require Import String Ascii List ZArith Lia Bool Arith DecimalString.
Import ListNotations.
Set Warnings "-register-all".
Set Implicit Arguments.
Open Scope list_scope.
Open Scope string_scope.

(** ** JSON text, as [JSON.stringify] writes it *)

Inductive Json : Type :=
| JNull
| JBool (b : bool)
| JNumber (z : Z)
| JString (s : string)
| JArray (l : list Json)
| JObject (l : list (string * Json)).

Definition dquote : ascii := "034"%char.
Definition backslash : ascii := "092"%char.

Definition hexDigit (n : nat) : ascii :=
  match n with
  | 0 => "0" | 1 => "1" | 2 => "2" | 3 => "3" | 4 => "4" | 5 => "5"
  | 6 => "6" | 7 => "7" | 8 => "8" | 9 => "9" | 10 => "a" | 11 => "b"
  | 12 => "c" | 13 => "d" | 14 => "e" | _ => "f"
  end%char.

(** [\u00xy] for a control character without a short escape. *)
Definition unicodeEscape (n : nat) : string :=
  "\u00" ++ String (hexDigit (n / 16)) (String (hexDigit (n mod 16)) "").

(** QuoteJSONString, one code unit at a time. *)
Definition quoteJSONChar (c : ascii) : string :=
  let n := nat_of_ascii c in
  if Nat.eqb n 8 then "\b"
  else if Nat.eqb n 9 then "\t"
  else if Nat.eqb n 10 then "\n"
  else if Nat.eqb n 12 then "\f"
  else if Nat.eqb n 13 then "\r"
  else if Nat.eqb n 34 then String backslash (String dquote "")
  else if Nat.eqb n 92 then "\\"
  else if Nat.ltb n 32 then unicodeEscape n
  else String c "".

Fixpoint quoteJSONBody (s : string) : string :=
  match s with
  | EmptyString => ""
  | String c r => quoteJSONChar c ++ quoteJSONBody r
  end.

Definition quoteJSONString (s : string) : string :=
  String dquote (quoteJSONBody s ++ String dquote "").

(** [Array.prototype.join] with a comma. *)
Fixpoint joinComma (l : list string) : string :=
  match l with
  | [] => ""
  | [x] => x
  | x :: rest => x ++ "," ++ joinComma rest
  end.

Fixpoint stringify (j : Json) : string :=
  match j with
  | JNull => "null"
  | JBool true => "true"
  | JBool false => "false"
  | JNumber z => NilZero.string_of_int (Z.to_int z)
  | JString s => quoteJSONString s
  | JArray l => "[" ++ joinComma (map stringify l) ++ "]"
  | JObject l =>
      "{" ++ joinComma (map (fun kv => quoteJSONString (fst kv) ++ ":" ++ stringify (snd kv)) l) ++ "}"
  end.

(** ** Data exchanged with the GAS endpoint *)

(** An entry of [match_list]: [{id, name}]. *)
Module Peer.
Record t : Type := { id : string; name : string }.
End Peer.

Definition peerJson (p : Peer.t) : Json :=
  JObject [("id", JString (Peer.id p)); ("name", JString (Peer.name p))].

(** The argument of [JSON.stringify(this.matchList)]. *)
Definition matchListJson (l : list Peer.t) : Json := JArray (map peerJson l).

Definition Sdp := string.
Definition Candidate := string.

(** A thrown JavaScript value. *)
Inductive Error : Type :=
| ErrorMsg (message : option string)   (* [new Error(message)] *)
| TypeError                            (* a property read on [null] *)
| Rejection (reason : string).         (* a promise of [fetch] or of the peer connection rejected *)

(** The body of a response of the endpoint (section 6 of the protocol:
    [success], [message], [next_status], [id], [match_list], [type], [sdp],
    [candidates], [peer_id], [peer_name]); an absent field is [None]. *)
Module Response.
Record t : Type := {
    success : bool;
    message : option string;
    next_status : option string;
    id : option string;
    match_list : option (list Peer.t);
    type : option string;
    sdp : option Sdp;
    candidates : option (list Candidate);
    peer_id : option string;
    peer_name : option string }.
End Response.

(** The object passed to [_apiCall]. *)
Inductive Request : Type :=
| ReqRegister (id : option string) (name global_ip : string)
    (friend_list : list string) (passphrase : string)
| ReqSendSignal (id peer_id : option string) (type : string)
    (sdp : option Sdp) (candidates : option (list Candidate))
    (status : option string).

Definition isRegister (r : Request) : bool :=
  match r with ReqRegister _ _ _ _ _ => true | ReqSendSignal _ _ _ _ _ _ => false end.

(** The events of [emit], each with its payload. *)
Inductive Event : Type :=
| EvRegistered (id : option string) (matchList : list Peer.t)
| EvMatchFound (matchList : list Peer.t)
| EvOffer (peerId : option string) (peerName : string)
| EvConnected (peerId peerName : option string)
| EvDisconnected (reason : string)
| EvError (error : Error)
| EvReset (nextStatus message : option string).

(** ** The client *)

(** What the client reads of its [RTCPeerConnection] and [RTCDataChannel]. *)
Record PeerConnection : Type := {
  localDescription : option Sdp;
  connectionState : string }.

Record DataChannel : Type := { readyState : string }.

(** The constructor's options after defaulting; never reassigned. *)
Record Settings : Type := {
  apiUrl : string;
  name : string;
  globalIp : string;
  friendList : list string;
  passphrase : string;
  pollingInterval : nat }.

Record Client : Type := {
  settings : Settings;
  id : option string;
  status : option string;
  peerId : option string;
  peerName : option string;
  matchList : list Peer.t;
  isConnected : bool;
  _pollingTimer : option nat;
  _peerConnection : option PeerConnection;
  _dataChannel : option DataChannel;
  _pendingCandidates : list Candidate;
  _isOfferer : bool;
  _isProcessingSignal : bool }.

Definition set_id (v : option string) (c : Client) : Client :=
  {| settings := settings c; id := v; status := status c; peerId := peerId c;
     peerName := peerName c; matchList := matchList c; isConnected := isConnected c;
     _pollingTimer := _pollingTimer c; _peerConnection := _peerConnection c;
     _dataChannel := _dataChannel c; _pendingCandidates := _pendingCandidates c;
     _isOfferer := _isOfferer c; _isProcessingSignal := _isProcessingSignal c |}.

Definition set_status (v : option string) (c : Client) : Client :=
  {| settings := settings c; id := id c; status := v; peerId := peerId c;
     peerName := peerName c; matchList := matchList c; isConnected := isConnected c;
     _pollingTimer := _pollingTimer c; _peerConnection := _peerConnection c;
     _dataChannel := _dataChannel c; _pendingCandidates := _pendingCandidates c;
     _isOfferer := _isOfferer c; _isProcessingSignal := _isProcessingSignal c |}.

Definition set_peerId (v : option string) (c : Client) : Client :=
  {| settings := settings c; id := id c; status := status c; peerId := v;
     peerName := peerName c; matchList := matchList c; isConnected := isConnected c;
     _pollingTimer := _pollingTimer c; _peerConnection := _peerConnection c;
     _dataChannel := _dataChannel c; _pendingCandidates := _pendingCandidates c;
     _isOfferer := _isOfferer c; _isProcessingSignal := _isProcessingSignal c |}.

Definition set_peerName (v : option string) (c : Client) : Client :=
  {| settings := settings c; id := id c; status := status c; peerId := peerId c;
     peerName := v; matchList := matchList c; isConnected := isConnected c;
     _pollingTimer := _pollingTimer c; _peerConnection := _peerConnection c;
     _dataChannel := _dataChannel c; _pendingCandidates := _pendingCandidates c;
     _isOfferer := _isOfferer c; _isProcessingSignal := _isProcessingSignal c |}.

Definition set_matchList (v : list Peer.t) (c : Client) : Client :=
  {| settings := settings c; id := id c; status := status c; peerId := peerId c;
     peerName := peerName c; matchList := v; isConnected := isConnected c;
     _pollingTimer := _pollingTimer c; _peerConnection := _peerConnection c;
     _dataChannel := _dataChannel c; _pendingCandidates := _pendingCandidates c;
     _isOfferer := _isOfferer c; _isProcessingSignal := _isProcessingSignal c |}.

Definition set_isConnected (v : bool) (c : Client) : Client :=
  {| settings := settings c; id := id c; status := status c; peerId := peerId c;
     peerName := peerName c; matchList := matchList c; isConnected := v;
     _pollingTimer := _pollingTimer c; _peerConnection := _peerConnection c;
     _dataChannel := _dataChannel c; _pendingCandidates := _pendingCandidates c;
     _isOfferer := _isOfferer c; _isProcessingSignal := _isProcessingSignal c |}.

Definition set_pollingTimer (v : option nat) (c : Client) : Client :=
  {| settings := settings c; id := id c; status := status c; peerId := peerId c;
     peerName := peerName c; matchList := matchList c; isConnected := isConnected c;
     _pollingTimer := v; _peerConnection := _peerConnection c;
     _dataChannel := _dataChannel c; _pendingCandidates := _pendingCandidates c;
     _isOfferer := _isOfferer c; _isProcessingSignal := _isProcessingSignal c |}.

Definition set_peerConnection (v : option PeerConnection) (c : Client) : Client :=
  {| settings := settings c; id := id c; status := status c; peerId := peerId c;
     peerName := peerName c; matchList := matchList c; isConnected := isConnected c;
     _pollingTimer := _pollingTimer c; _peerConnection := v;
     _dataChannel := _dataChannel c; _pendingCandidates := _pendingCandidates c;
     _isOfferer := _isOfferer c; _isProcessingSignal := _isProcessingSignal c |}.

Definition set_dataChannel (v : option DataChannel) (c : Client) : Client :=
  {| settings := settings c; id := id c; status := status c; peerId := peerId c;
     peerName := peerName c; matchList := matchList c; isConnected := isConnected c;
     _pollingTimer := _pollingTimer c; _peerConnection := _peerConnection c;
     _dataChannel := v; _pendingCandidates := _pendingCandidates c;
     _isOfferer := _isOfferer c; _isProcessingSignal := _isProcessingSignal c |}.

Definition set_pendingCandidates (v : list Candidate) (c : Client) : Client :=
  {| settings := settings c; id := id c; status := status c; peerId := peerId c;
     peerName := peerName c; matchList := matchList c; isConnected := isConnected c;
     _pollingTimer := _pollingTimer c; _peerConnection := _peerConnection c;
     _dataChannel := _dataChannel c; _pendingCandidates := v;
     _isOfferer := _isOfferer c; _isProcessingSignal := _isProcessingSignal c |}.

Definition set_isOfferer (v : bool) (c : Client) : Client :=
  {| settings := settings c; id := id c; status := status c; peerId := peerId c;
     peerName := peerName c; matchList := matchList c; isConnected := isConnected c;
     _pollingTimer := _pollingTimer c; _peerConnection := _peerConnection c;
     _dataChannel := _dataChannel c; _pendingCandidates := _pendingCandidates c;
     _isOfferer := v; _isProcessingSignal := _isProcessingSignal c |}.

Definition set_isProcessingSignal (v : bool) (c : Client) : Client :=
  {| settings := settings c; id := id c; status := status c; peerId := peerId c;
     peerName := peerName c; matchList := matchList c; isConnected := isConnected c;
     _pollingTimer := _pollingTimer c; _peerConnection := _peerConnection c;
     _dataChannel := _dataChannel c; _pendingCandidates := _pendingCandidates c;
     _isOfferer := _isOfferer c; _isProcessingSignal := v |}.

(** The constructor's [options]; an absent option is [None]. *)
Record Options : Type := {
  opt_apiUrl : option string;
  opt_name : option string;
  opt_id : option string;
  opt_globalIp : option string;
  opt_friendList : option (list string);
  opt_passphrase : option string;
  opt_pollingInterval : option nat }.

(** Truthiness of a string that may be absent: [null], [undefined] and the
    empty string are falsy. *)
Definition truthy (s : option string) : bool :=
  match s with
  | Some (String _ _) => true
  | _ => false
  end.

(** [s || d] for strings. *)
Definition orElse (s : option string) (d : string) : string :=
  match s with
  | Some (String a r) => String a r
  | _ => d
  end.

(** [s === lit] where [s] may be absent. *)
Definition isStr (s : option string) (lit : string) : bool :=
  match s with
  | Some v => v =? lit
  | None => false
  end.

(** [new Client(options)] (lines 84-117). *)
Definition newClient (o : Options) : Error + Client :=
  if negb (truthy (opt_apiUrl o)) then inl (ErrorMsg (Some "apiUrl は必須です"))
  else if negb (truthy (opt_name o)) then inl (ErrorMsg (Some "name は必須です"))
  else inr
    {| settings :=
         {| apiUrl := orElse (opt_apiUrl o) "";
            name := orElse (opt_name o) "";
            globalIp := orElse (opt_globalIp o) "";
            friendList := match opt_friendList o with Some l => l | None => [] end;
            passphrase := orElse (opt_passphrase o) "";
            pollingInterval :=
              match opt_pollingInterval o with
              | Some (S n) => S n
              | _ => 2000
              end |};
       id := if truthy (opt_id o) then opt_id o else None;
       status := Some "idle";
       peerId := None;
       peerName := None;
       matchList := [];
       isConnected := false;
       _pollingTimer := None;
       _peerConnection := None;
       _dataChannel := None;
       _pendingCandidates := [];
       _isOfferer := false;
       _isProcessingSignal := false |}.

(** ** Effects, the world and the monad of operations *)

Inductive Effect : Type :=
| Fetch (req : Request)                    (* [fetch(apiUrl, {method: 'POST', body})] *)
| Emit (ev : Event)                        (* [this.emit(event, data)] *)
| SetInterval (timer ms : nat)             (* [setInterval(() => this._poll(), ms)] *)
| ClearInterval (timer : nat)
| SetTimeout (ms : nat)
| NewRTCPeerConnection
| PcCreateDataChannel (label : string)
| PcCreateOffer
| PcCreateAnswer
| PcSetLocalDescription (d : Sdp)
| PcSetRemoteDescription (d : option Sdp)
| PcAddIceCandidate (c : Candidate)
| PcClose
| DcClose
| DcSend (msg : string)
| ConsoleWarn (e : Error)
| ConsoleError (e : Error)
| Await (snapshot : Client).               (* a suspension point and the client as it stands there *)

(** How an awaited [_apiCall] settles: the parsed body, or a rejection (the
    network failed or the body was not JSON). *)
Inductive FetchResult : Type :=
| Body (r : Response.t)
| FetchFailed (e : Error).

(** How an awaited call on the peer connection settles; [d] is the
    description [createOffer] / [createAnswer] resolve with and is ignored
    by the other calls. *)
Inductive RtcResult : Type :=
| RtcOk (d : Sdp)
| RtcFailed (e : Error).

Record World : Type := {
  client : Client;
  trace : list Effect;              (* oldest first *)
  fetchInbox : list FetchResult;    (* outcomes of the [_apiCall]s to come, in order *)
  rtcInbox : list RtcResult;        (* outcomes of the peer-connection calls to come *)
  timers : nat }.                   (* identifiers handed out by [setInterval] so far *)

Definition withClient (c : Client) (w : World) : World :=
  {| client := c; trace := trace w; fetchInbox := fetchInbox w;
     rtcInbox := rtcInbox w; timers := timers w |}.

Definition addTrace (e : Effect) (w : World) : World :=
  {| client := client w; trace := (trace w ++ [e])%list; fetchInbox := fetchInbox w;
     rtcInbox := rtcInbox w; timers := timers w |}.

Inductive Outcome (A : Type) : Type :=
| Ret (a : A)          (* returned / the promise fulfilled *)
| Throw (e : Error)    (* threw / the promise rejected *)
| Stall.               (* suspended on a call that never settles *)
Arguments Ret {A} a.
Arguments Throw {A} e.
Arguments Stall {A}.

Definition M (A : Type) : Type := World -> Outcome A * World.

Definition ret {A} (a : A) : M A := fun w => (Ret a, w).
Definition throw {A} (e : Error) : M A := fun w => (Throw e, w).

Definition bind {A B} (m : M A) (k : A -> M B) : M B :=
  fun w =>
    match m w with
    | (Ret a, w') => k a w'
    | (Throw e, w') => (Throw e, w')
    | (Stall, w') => (Stall, w')
    end.

Notation "x <- m ;; k" := (bind m (fun x => k))
  (at level 61, m at next level, right associativity).
Notation "m ;; k" := (bind m (fun _ => k))
  (at level 61, right associativity).

(** [try { m } catch (error) { h error }] *)
Definition try_catch {A} (m : M A) (h : Error -> M A) : M A :=
  fun w =>
    match m w with
    | (Throw e, w') => h e w'
    | r => r
    end.

(** [try { m } finally { f }]: [f] runs when [m] returns or throws, not
    while it is suspended. *)
Definition try_finally {A} (m : M A) (f : M unit) : M A :=
  fun w =>
    match m w with
    | (Stall, w') => (Stall, w')
    | (o, w') =>
        match f w' with
        | (Ret _, w'') => (o, w'')
        | (Throw e, w'') => (Throw e, w'')
        | (Stall, w'') => (Stall, w'')
        end
    end.

(** [for (const x of l) { await f(x) }] *)
Fixpoint forEach {A} (l : list A) (f : A -> M unit) : M unit :=
  match l with
  | [] => ret tt
  | x :: rest => f x ;; forEach rest f
  end.

Definition getClient : M Client := fun w => (Ret (client w), w).
Definition update (f : Client -> Client) : M unit :=
  fun w => (Ret tt, withClient (f (client w)) w).
Definition effect (e : Effect) : M unit := fun w => (Ret tt, addTrace e w).

(** A suspension point: the client as it stands is observable. *)
Definition suspend : M unit := fun w => (Ret tt, addTrace (Await (client w)) w).

Definition settleFetch : M Response.t :=
  fun w =>
    match fetchInbox w with
    | [] => (Stall, w)
    | r :: rest =>
        let w' := {| client := client w; trace := trace w; fetchInbox := rest;
                     rtcInbox := rtcInbox w; timers := timers w |} in
        match r with
        | Body b => (Ret b, w')
        | FetchFailed e => (Throw e, w')
        end
    end.

Definition settleRtc : M Sdp :=
  fun w =>
    match rtcInbox w with
    | [] => (Stall, w)
    | r :: rest =>
        let w' := {| client := client w; trace := trace w; fetchInbox := fetchInbox w;
                     rtcInbox := rest; timers := timers w |} in
        match r with
        | RtcOk d => (Ret d, w')
        | RtcFailed e => (Throw e, w')
        end
    end.

(** [setInterval]: a fresh, non-zero timer identifier. *)
Definition setInterval (ms : nat) : M nat :=
  fun w =>
    let t := S (timers w) in
    (Ret t, addTrace (SetInterval t ms)
              {| client := client w; trace := trace w; fetchInbox := fetchInbox w;
                 rtcInbox := rtcInbox w; timers := t |}).

(** ** The operations of [Client] *)

(** [emit] (lines 57-66): the listeners' exceptions are caught inside. *)
Definition emit (ev : Event) : M unit := effect (Emit ev).

(** [_apiCall] (lines 272-280). *)
Definition _apiCall (data : Request) : M Response.t :=
  effect (Fetch data) ;;
  suspend ;;
  settleFetch.

(** [_startPolling] (lines 286-292). *)
Definition _startPolling : M unit :=
  c <- getClient ;;
  match _pollingTimer c with
  | Some _ => ret tt
  | None =>
      t <- setInterval (pollingInterval (settings c)) ;;
      update (set_pollingTimer (Some t))
  end.

(** [_stopPolling] (lines 298-303). *)
Definition _stopPolling : M unit :=
  c <- getClient ;;
  match _pollingTimer c with
  | Some t => effect (ClearInterval t) ;; update (set_pollingTimer None)
  | None => ret tt
  end.

(** The request of [register] (lines 125-132). *)
Definition registerRequest (c : Client) : Request :=
  ReqRegister (id c) (name (settings c)) (globalIp (settings c))
    (friendList (settings c)) (passphrase (settings c)).

(** Lines 134-157 of [register]: what is done with the response. *)
Definition onRegistered (response : Response.t) : M unit :=
  if negb (Response.success response) then throw (ErrorMsg (Response.message response))
  else
    (if truthy (Response.id response) then update (set_id (Response.id response))
     else ret tt) ;;
    update (set_status (Response.next_status response)) ;;
    update (set_matchList
              match Response.match_list response with Some l => l | None => [] end) ;;
    c <- getClient ;;
    emit (EvRegistered (id c) (matchList c)) ;;
    (if Nat.ltb 0 (length (matchList c)) then emit (EvMatchFound (matchList c))
     else ret tt) ;;
    _startPolling.

(** [register] (lines 123-163). *)
Definition register : M unit :=
  try_catch
    (c <- getClient ;;
     response <- _apiCall (registerRequest c) ;;
     onRegistered response)
    (fun error => emit (EvError error) ;; throw error).

(** A call on [this._peerConnection]; reading it while it is [null] throws. *)
Definition onPeerConnection {A} (k : PeerConnection -> M A) : M A :=
  c <- getClient ;;
  match _peerConnection c with
  | Some pc => k pc
  | None => throw TypeError
  end.

Definition pcCall (e : Effect) : M Sdp :=
  onPeerConnection (fun _ => effect e ;; suspend ;; settleRtc).

(** [await this._peerConnection.setLocalDescription(d)]; the connection's
    [localDescription] then reads [d]. *)
Definition pcSetLocalDescription (d : Sdp) : M unit :=
  pcCall (PcSetLocalDescription d) ;;
  onPeerConnection (fun pc =>
    update (set_peerConnection
              (Some {| localDescription := Some d; connectionState := connectionState pc |}))).

(** [_createPeerConnection] (lines 475-517); the three handlers it installs
    are [onicecandidate], [onconnectionstatechange] and [ondatachannel]
    below. *)
Definition _createPeerConnection : M unit :=
  effect NewRTCPeerConnection ;;
  update (set_peerConnection (Some {| localDescription := None; connectionState := "new" |})) ;;
  update (set_pendingCandidates []).

(** [_waitForIceCandidates] (lines 546-558) as the caller sees it: the
    timeout is armed, the handler is installed on the connection, and the
    caller is suspended until the promise resolves, which it always does
    (see [waitResolution] below). *)
Definition _waitForIceCandidates : M unit :=
  effect (SetTimeout 1000) ;;
  onPeerConnection (fun _ => suspend).

(** The clean-up that opens [disconnect], [_handleAutoReconnect],
    [_handleRecovery] and [_handleReset]: close and drop the data channel,
    then the peer connection, each if present. *)
Definition closeTransport : M unit :=
  c <- getClient ;;
  match _dataChannel c with
  | Some _ => effect DcClose ;; update (set_dataChannel None)
  | None => ret tt
  end ;;
  c <- getClient ;;
  match _peerConnection c with
  | Some _ => effect PcClose ;; update (set_peerConnection None)
  | None => ret tt
  end.

(** [_handleRecovery] (lines 628-651). *)
Definition _handleRecovery : M unit :=
  closeTransport ;;
  update (set_peerId None) ;;
  update (set_peerName None) ;;
  update (set_matchList []) ;;
  update (set_pendingCandidates []) ;;
  update (set_isOfferer false) ;;
  update (set_isConnected false) ;;
  update (set_isProcessingSignal false).

(** Lines 589-611 of [_handleAutoReconnect]: drop the transport and the
    session ([id] included) and stop polling. *)
Definition forgetSession : M unit :=
  closeTransport ;;
  update (set_id None) ;;
  update (set_peerId None) ;;
  update (set_peerName None) ;;
  update (set_matchList []) ;;
  update (set_pendingCandidates []) ;;
  update (set_isOfferer false) ;;
  update (set_isConnected false) ;;
  update (set_isProcessingSignal false) ;;
  _stopPolling.

(** The [catch] block of [_handleAutoReconnect] (lines 617-620). *)
Definition reconnectHandler (error : Error) : M unit :=
  effect (ConsoleError error) ;; emit (EvError error).

(** [_handleAutoReconnect] (lines 586-621). *)
Definition _handleAutoReconnect : M unit :=
  forgetSession ;;
  try_catch register reconnectHandler.

(** [_handleReset] (lines 657-690). *)
Definition _handleReset (response : Response.t) : M unit :=
  let nextStatus := Response.next_status response in
  let message := Response.message response in
  closeTransport ;;
  update (set_peerId None) ;;
  update (set_peerName None) ;;
  update (set_matchList []) ;;
  update (set_pendingCandidates []) ;;
  update (set_isOfferer false) ;;
  update (set_isProcessingSignal false) ;;
  _stopPolling ;;
  update (set_status (Some "idle")) ;;
  update (set_id None) ;;
  emit (EvReset nextStatus message).

(** [disconnect] (lines 233-253). *)
Definition disconnect : M unit :=
  _stopPolling ;;
  closeTransport ;;
  update (set_status (Some "disconnected")) ;;
  update (set_isConnected false) ;;
  update (set_peerId None) ;;
  update (set_peerName None) ;;
  update (set_isProcessingSignal false) ;;
  emit (EvDisconnected "user").

(** [send] (lines 259-266). *)
Definition send (data : Json) : M unit :=
  c <- getClient ;;
  match _dataChannel c with
  | Some dc =>
      if readyState dc =? "open" then effect (DcSend (stringify data))
      else throw (ErrorMsg (Some "接続されていません"))
  | None => throw (ErrorMsg (Some "接続されていません"))
  end.

(** [connect] (lines 170-228). *)
Definition connect (peerId0 : string) : M unit :=
  update (set_isProcessingSignal true) ;;
  try_finally
    (try_catch
       (update (set_peerId (Some peerId0)) ;;
        update (set_isOfferer true) ;;
        c <- getClient ;;
        match find (fun p => Peer.id p =? peerId0) (matchList c) with
        | Some peer => update (set_peerName (Some (Peer.name peer)))
        | None => ret tt
        end ;;
        _createPeerConnection ;;
        onPeerConnection (fun _ =>
          effect (PcCreateDataChannel "data") ;;
          update (set_dataChannel (Some {| readyState := "connecting" |}))) ;;
        offer <- pcCall PcCreateOffer ;;
        pcSetLocalDescription offer ;;
        _waitForIceCandidates ;;
        c <- getClient ;;
        sdp <- onPeerConnection (fun pc => ret (localDescription pc)) ;;
        response <- _apiCall (ReqSendSignal (id c) (Some peerId0) "offer" sdp
                                (Some (_pendingCandidates c)) None) ;;
        if negb (Response.success response) then throw (ErrorMsg (Response.message response))
        else
          update (set_status (Response.next_status response)) ;;
          update (set_pendingCandidates []))
       (fun error => effect (ConsoleError error) ;; emit (EvError error) ;; throw error))
    (update (set_isProcessingSignal false)).

(** The loop of [_handleOffer], [_handleAnswer] and [_handleIce] over the
    candidates of a response. *)
Definition addIceCandidates (cs : list Candidate) : M unit :=
  forEach cs (fun candidate => pcCall (PcAddIceCandidate candidate) ;; ret tt).

(** [_handleOffer] (lines 371-429). *)
Definition _handleOffer (response : Response.t) : M unit :=
  update (set_isProcessingSignal true) ;;
  try_finally
    (try_catch
       (update (set_peerId (Response.peer_id response)) ;;
        update (set_peerName (Some (orElse (Response.peer_name response) ""))) ;;
        update (set_isOfferer false) ;;
        emit (EvOffer (Response.peer_id response) (orElse (Response.peer_name response) "")) ;;
        _createPeerConnection ;;
        pcCall (PcSetRemoteDescription (Response.sdp response)) ;;
        match Response.candidates response with
        | Some cs => addIceCandidates cs
        | None => ret tt
        end ;;
        answer <- pcCall PcCreateAnswer ;;
        pcSetLocalDescription answer ;;
        _waitForIceCandidates ;;
        c <- getClient ;;
        sdp <- onPeerConnection (fun pc => ret (localDescription pc)) ;;
        _apiCall (ReqSendSignal (id c) (peerId c) "answer" sdp
                    (Some (_pendingCandidates c)) None) ;;
        update (set_pendingCandidates []))
       (fun error => effect (ConsoleError error) ;; throw error))
    (update (set_isProcessingSignal false)).

(** [_handleAnswer] (lines 435-457). *)
Definition _handleAnswer (response : Response.t) : M unit :=
  update (set_isProcessingSignal true) ;;
  try_finally
    (try_catch
       (pcCall (PcSetRemoteDescription (Response.sdp response)) ;;
        match Response.candidates response with
        | Some cs => addIceCandidates cs
        | None => ret tt
        end)
       (fun error => effect (ConsoleError error) ;; throw error))
    (update (set_isProcessingSignal false)).

(** [_handleIce] (lines 463-469). *)
Definition _handleIce (response : Response.t) : M unit :=
  c <- getClient ;;
  match Response.candidates response, _peerConnection c with
  | Some cs, Some _ => addIceCandidates cs
  | _, _ => ret tt
  end.

(** The request of a polling tick (lines 312-318). *)
Definition pollRequest (c : Client) : Request :=
  ReqSendSignal (id c) (peerId c) "polling" None None (status c).

(** The test of line 325: the failed response asks for registration. *)
Definition asksToRegister (response : Response.t) : bool :=
  isStr (Response.next_status response) "register"
  || isStr (Response.message response) "ユーザーが見つかりません".

(** The test of line 333: sent back to [wait_offer] with a peer assigned
    and no signal being processed. *)
Definition sentBackToWaitOffer (response : Response.t) (c : Client) : bool :=
  isStr (Response.next_status response) "wait_offer"
  && truthy (peerId c) && negb (_isProcessingSignal c).

(** Lines 338-354 of [_poll]: dispatch on the response's [type]. *)
Definition routeResponse (response : Response.t) : M unit :=
  if isStr (Response.type response) "offer" then _handleOffer response
  else if isStr (Response.type response) "answer" then _handleAnswer response
  else if isStr (Response.type response) "ice" then _handleIce response
  else
    match Response.match_list response with
    | Some (p :: ps) =>
        c <- getClient ;;
        if negb (stringify (matchListJson (matchList c)) =?
                 stringify (matchListJson (p :: ps)))
        then
          update (set_matchList (p :: ps)) ;;
          c <- getClient ;;
          emit (EvMatchFound (matchList c))
        else ret tt
    | _ => ret tt
    end.

(** Lines 356-359 of [_poll]: take the server's [next_status] unless the
    status is already [connected]. *)
Definition adoptStatus (response : Response.t) : M unit :=
  c <- getClient ;;
  if negb (isStr (status c) "connected")
  then update (set_status (Response.next_status response))
  else ret tt.

(** Lines 331-359 of [_poll]: what a tick does with a successful response. *)
Definition onPollSuccess (response : Response.t) : M unit :=
  c <- getClient ;;
  (if sentBackToWaitOffer response c then _handleRecovery else ret tt) ;;
  routeResponse response ;;
  adoptStatus response.

(** Lines 321-359 of [_poll]: what a tick does with the response. *)
Definition onPollResponse (response : Response.t) : M unit :=
  if negb (Response.success response) then
    (if asksToRegister response then _handleAutoReconnect else ret tt)
  else onPollSuccess response.

(** The [try] block of [_poll] (lines 311-359). *)
Definition pollBody : M unit :=
  c <- getClient ;;
  response <- _apiCall (pollRequest c) ;;
  onPollResponse response.

(** [_poll] (lines 309-365). *)
Definition _poll : M unit :=
  try_catch pollBody (fun error => effect (ConsoleWarn error)).

(** [n] ticks of the polling timer, one after the other; a tick that stalls
    does not hold back the next one. *)
Fixpoint pollTicks (n : nat) (w : World) : World :=
  match n with
  | O => w
  | S k => pollTicks k (snd (_poll w))
  end.

(** ** The callbacks installed on the transport *)

(** [onicecandidate] (lines 486-490). *)
Definition onicecandidate (candidate : option Candidate) : M unit :=
  match candidate with
  | Some c0 => c <- getClient ;; update (set_pendingCandidates (_pendingCandidates c ++ [c0])%list)
  | None => ret tt
  end.

(** [_notifyConnected] (lines 565-579), called without [await]: the request
    is sent at once and its outcome only decides what is logged. *)
Definition _notifyConnected : M unit :=
  c <- getClient ;;
  effect (Fetch (ReqSendSignal (id c) (peerId c) "polling" None None (Some "connected"))).

(** [onconnectionstatechange] (lines 493-510), run when the connection's
    [connectionState] has become [state]. *)
Definition onconnectionstatechange (state : string) : M unit :=
  onPeerConnection (fun pc =>
    update (set_peerConnection
              (Some {| localDescription := localDescription pc; connectionState := state |})) ;;
    if state =? "connected" then
      update (set_isConnected true) ;;
      update (set_status (Some "connected")) ;;
      _stopPolling ;;
      _notifyConnected ;;
      c <- getClient ;;
      emit (EvConnected (peerId c) (peerName c))
    else if (state =? "disconnected") || (state =? "failed") then
      update (set_isConnected false) ;;
      emit (EvDisconnected state)
    else ret tt).

(** [ondatachannel] (lines 513-516). *)
Definition ondatachannel (channel : DataChannel) : M unit :=
  update (set_dataChannel (Some channel)).

(** ** The promise of [_waitForIceCandidates] on the event loop's clock

    Times are milliseconds since the promise was created.  The runtime runs
    the timeout callback once its 1000 ms have elapsed, [late] ms after they
    have (0 when the event loop is idle); a change of the connection's
    [iceGatheringState] runs the handler of line 551. *)

Record Wait : Type := {
  resolvedAt : option nat;   (* when [resolve] was first called *)
  timeoutArmed : bool }.     (* the timeout is pending: neither fired nor cleared *)

(** The executor (lines 549-556): arm the timeout, install the handler. *)
Definition waitStart : Wait := {| resolvedAt := None; timeoutArmed := true |}.

(** [resolve()]: the first call settles the promise, later ones do nothing. *)
Definition resolve (now : nat) (p : Wait) : Wait :=
  match resolvedAt p with
  | Some _ => p
  | None => {| resolvedAt := Some now; timeoutArmed := timeoutArmed p |}
  end.

(** When the timeout callback runs, unless cleared. *)
Definition timeoutDue (late : nat) : nat := 1000 + late.

(** The timeout callback [resolve] of line 549. *)
Definition fireTimeout (late : nat) (p : Wait) : Wait :=
  if timeoutArmed p
  then resolve (timeoutDue late) {| resolvedAt := resolvedAt p; timeoutArmed := false |}
  else p.

(** The handler of lines 551-556, run at [now] with the gathering state
    it reads. *)
Definition onicegatheringstatechange (now : nat) (state : string) (p : Wait) : Wait :=
  if state =? "complete"
  then resolve now {| resolvedAt := resolvedAt p; timeoutArmed := false |}
  else p.

(** The event loop: the gathering-state changes of [events] in order, each
    [delay] ms after the one before; the timeout callback runs once it is
    due, and at the latest when no event is left. *)
Fixpoint runWait (late now : nat) (events : list (nat * string)) (p : Wait) : Wait :=
  match events with
  | [] => fireTimeout late p
  | (delay, state) :: rest =>
      let t := now + delay in
      let p1 := if Nat.leb (timeoutDue late) t then fireTimeout late p else p in
      runWait late t rest (onicegatheringstatechange t state p1)
  end.

Definition waitResolution (late : nat) (events : list (nat * string)) : option nat :=
  resolvedAt (runWait late 0 events waitStart).

(** When the connection first reports [complete], if it ever does. *)
Fixpoint firstComplete (now : nat) (events : list (nat * string)) : option nat :=
  match events with
  | [] => None
  | (delay, state) :: rest =>
      if state =? "complete" then Some (now + delay)
      else firstComplete (now + delay) rest
  end.

(** ** Views of a trace *)

Definition asEvent (e : Effect) : list Event :=
  match e with Emit ev => [ev] | _ => [] end.

Definition asRequest (e : Effect) : list Request :=
  match e with Fetch r => [r] | _ => [] end.


Definition asError (e : Effect) : list Error :=
  match e with Emit (EvError x) => [x] | _ => [] end.

Definition emitted (t : list Effect) : list Event := flat_map asEvent t.

Definition requests (t : list Effect) : list Request := flat_map asRequest t.


(** The payloads of the [error] events. *)
Definition errorEvents (t : list Effect) : list Error := flat_map asError t.

Definition registerCalls (t : list Effect) : nat :=
  length (filter isRegister (requests t)).

(** [extends w w' t]: [w'] has the trace of [w] followed by [t]. *)
Definition extends (w w' : World) (t : list Effect) : Prop :=
  trace w' = (trace w ++ t)%list.

(** ** [JSON.stringify] is injective on match lists *)

(** The inverse of the string quoting, one code unit at a time. *)













(** ** Relations kept by every step of an operation *)

(** A relation between the world before and after, with the updates and
    effects that keep it. *)
Record Invariant : Type := {
  rel : World -> World -> Prop;
  okUpdate : (Client -> Client) -> Prop;
  okEffect : Effect -> Prop;
  rel_refl : forall w, rel w w;
  rel_trans : forall a b c, rel a b -> rel b c -> rel a c;
  rel_update : forall f w, okUpdate f -> rel w (withClient (f (client w)) w);
  rel_effect : forall e w, okEffect e -> rel w (addTrace e w);
  rel_suspend : forall w, rel w (addTrace (Await (client w)) w);
  rel_settleFetch : forall w, rel w (snd (settleFetch w));
  rel_settleRtc : forall w, rel w (snd (settleRtc w));
  rel_setInterval : forall ms w, rel w (snd (setInterval ms w)) }.

Definition stable (I : Invariant) {A} (m : M A) : Prop :=
  forall w, rel I w (snd (m w)).

Section Stable.
Variable I : Invariant.

Lemma stable_ret {A} (a : A) : stable I (ret a).
Proof. intros w. apply rel_refl. Qed.

Lemma stable_throw {A} (e : Error) : stable I (@throw A e).
Proof. intros w. apply rel_refl. Qed.

Lemma stable_getClient : stable I getClient.
Proof. intros w. apply rel_refl. Qed.

Lemma stable_update (f : Client -> Client) : okUpdate I f -> stable I (update f).
Proof. intros H w. now apply rel_update. Qed.

Lemma stable_effect (e : Effect) : okEffect I e -> stable I (effect e).
Proof. intros H w. now apply rel_effect. Qed.

Lemma stable_suspend : stable I suspend.
Proof. intros w. apply rel_suspend. Qed.

Lemma stable_settleFetch : stable I settleFetch.
Proof. intros w. apply rel_settleFetch. Qed.

Lemma stable_settleRtc : stable I settleRtc.
Proof. intros w. apply rel_settleRtc. Qed.

Lemma stable_setInterval (ms : nat) : stable I (setInterval ms).
Proof. intros w. apply rel_setInterval. Qed.

Lemma stable_bind {A B} (m : M A) (k : A -> M B) :
  stable I m -> (forall a, stable I (k a)) -> stable I (bind m k).
Proof.
  intros Hm Hk w. unfold bind.
  specialize (Hm w). destruct (m w) as [[a|e|] w1]; simpl in *; auto.
  eapply rel_trans; [exact Hm | apply Hk].
Qed.

Lemma stable_try_catch {A} (m : M A) (h : Error -> M A) :
  stable I m -> (forall e, stable I (h e)) -> stable I (try_catch m h).
Proof.
  intros Hm Hh w. unfold try_catch.
  specialize (Hm w). destruct (m w) as [[a|e|] w1]; simpl in *; auto.
  eapply rel_trans; [exact Hm | apply Hh].
Qed.

Lemma stable_try_finally {A} (m : M A) (f : M unit) :
  stable I m -> stable I f -> stable I (try_finally m f).
Proof.
  intros Hm Hf w. unfold try_finally.
  specialize (Hm w). destruct (m w) as [[a|e|] w1]; simpl in *; auto;
    specialize (Hf w1); destruct (f w1) as [[[]|e'|] w2]; simpl in *;
    eapply rel_trans; eassumption.
Qed.

Lemma stable_forEach {A} (l : list A) (f : A -> M unit) :
  (forall a, stable I (f a)) -> stable I (forEach l f).
Proof.
  intros Hf. induction l as [|x l IH]; simpl.
  - apply stable_ret.
  - apply stable_bind; auto.
Qed.
End Stable.

Create HintDb client_ops.
#[local] Hint Unfold emit _apiCall _startPolling _stopPolling register onRegistered
  onPollResponse onPollSuccess
  onPeerConnection pcCall pcSetLocalDescription _createPeerConnection
  _waitForIceCandidates closeTransport _handleRecovery forgetSession
  reconnectHandler _handleAutoReconnect
  _handleReset disconnect send connect addIceCandidates _handleOffer
  _handleAnswer _handleIce routeResponse adoptStatus pollBody _poll
  onicecandidate _notifyConnected onconnectionstatechange ondatachannel
  : client_ops.

(** Breaks an operation into its steps; [side] settles the condition on an
    update or an effect. *)
Ltac stable_step side :=
  cbv beta;
  first
    [ apply stable_ret
    | apply stable_throw
    | apply stable_getClient
    | apply stable_suspend
    | apply stable_settleFetch
    | apply stable_settleRtc
    | apply stable_setInterval
    | apply stable_update; side
    | apply stable_effect; side
    | apply stable_bind; [| intros ?]
    | apply stable_try_catch; [| intros ?]
    | apply stable_try_finally
    | apply stable_forEach; intros ?
    | assumption
    | match goal with
      | |- stable _ (if ?b then _ else _) => destruct b
      | |- stable _ (match ?x with _ => _ end) => destruct x
      | |- stable _ (let _ := _ in _) => cbv zeta
      end
    | progress autounfold with client_ops ].

Ltac stable_ops side := repeat (stable_step side).

(** *** A field of the client that an operation never writes *)

Definition keeps {T} (p : Client -> T) : Invariant.
Proof.
  refine {| rel := fun w w' => p (client w') = p (client w);
            okUpdate := fun f => forall c, p (f c) = p c;
            okEffect := fun _ => True |}.
  - reflexivity.
  - intros a b c H1 H2. congruence.
  - intros f w H. apply H.
  - reflexivity.
  - reflexivity.
  - intros w. unfold settleFetch. destruct (fetchInbox w) as [|[]]; reflexivity.
  - intros w. unfold settleRtc. destruct (rtcInbox w) as [|[]]; reflexivity.
  - reflexivity.
Defined.

(** *** Effects an operation never adds to the trace *)

Definition adds (P : Effect -> Prop) (Pawait : forall c, P (Await c))
  (Ptimer : forall t ms, P (SetInterval t ms)) : Invariant.
Proof.
  refine {| rel := fun w w' => exists t, extends w w' t /\ Forall P t;
            okUpdate := fun _ => True;
            okEffect := P |}.
  - intros w. exists []. split; [unfold extends; now rewrite app_nil_r | constructor].
  - intros a b c [t1 [E1 F1]] [t2 [E2 F2]]. unfold extends in *.
    exists (t1 ++ t2)%list. split.
    + rewrite app_assoc. congruence.
    + apply Forall_app. split; assumption.
  - intros f w _. exists []. split; [unfold extends; simpl; now rewrite app_nil_r | constructor].
  - intros e w H. exists [e]. split; [reflexivity | repeat constructor; assumption].
  - intros w. exists [Await (client w)]. split; [reflexivity | repeat constructor; apply Pawait].
  - intros w. exists []. unfold settleFetch, extends.
    destruct (fetchInbox w) as [|[]]; simpl; rewrite app_nil_r; split; constructor.
  - intros w. exists []. unfold settleRtc, extends.
    destruct (rtcInbox w) as [|[]]; simpl; rewrite app_nil_r; split; constructor.
  - intros ms w. exists [SetInterval (S (timers w)) ms].
    split; [reflexivity | repeat constructor; apply Ptimer].
Defined.

Lemma keeps_rel {T} (p : Client -> T) (w w' : World) :
  rel (keeps p) w w' -> p (client w') = p (client w).
Proof. exact (fun H => H). Qed.

Ltac keeps_side := unfold keeps; simpl; intros; reflexivity.

Ltac any_side := simpl; exact I.

(** Every effect is allowed: the trace only grows. *)
Definition anyTrace : Invariant :=
  adds (fun _ => True) (fun _ => I) (fun _ _ => I).

(** ** Operations that always return *)

Definition total {A} (m : M A) : Prop := forall w, exists a, fst (m w) = Ret a.

Lemma total_ret {A} (a : A) : total (ret a).
Proof. intros w. now exists a. Qed.

Lemma total_getClient : total getClient.
Proof. intros w. now exists (client w). Qed.

Lemma total_update (f : Client -> Client) : total (update f).
Proof. intros w. now exists tt. Qed.

Lemma total_effect (e : Effect) : total (effect e).
Proof. intros w. now exists tt. Qed.

Lemma total_suspend : total suspend.
Proof. intros w. now exists tt. Qed.

Lemma total_setInterval (ms : nat) : total (setInterval ms).
Proof. intros w. now exists (S (timers w)). Qed.

Lemma total_bind {A B} (m : M A) (k : A -> M B) :
  total m -> (forall a, total (k a)) -> total (bind m k).
Proof.
  intros Hm Hk w. unfold bind.
  destruct (Hm w) as [a Ha]. destruct (m w) as [o w1]. simpl in Ha. subst o.
  apply Hk.
Qed.

Ltac total_step :=
  cbv beta;
  first
    [ apply total_ret
    | apply total_getClient
    | apply total_update
    | apply total_effect
    | apply total_suspend
    | apply total_setInterval
    | apply total_bind; [| intros ?]
    | match goal with
      | |- total (if ?b then _ else _) => destruct b
      | |- total (match ?x with _ => _ end) => destruct x
      | |- total (let _ := _ in _) => cbv zeta
      end
    | progress autounfold with client_ops ].

Ltac total_ops := repeat total_step.

Lemma total_run {A} (m : M A) (w : World) :
  total m -> exists a, m w = (Ret a, snd (m w)).
Proof.
  intros H. destruct (H w) as [a Ha]. exists a.
  destruct (m w) as [o w1]. simpl in *. now subst.
Qed.

Lemma bind_total {A B} (m : M A) (k : A -> M B) (w : World) :
  total m -> exists a, bind m k w = k a (snd (m w)).
Proof.
  intros H. destruct (total_run w H) as [a Ha]. exists a.
  unfold bind. now rewrite Ha.
Qed.

Lemma total_stopPolling : total _stopPolling.
Proof. total_ops. Qed.

Lemma total_closeTransport : total closeTransport.
Proof. total_ops. Qed.

Lemma total_forgetSession : total forgetSession.
Proof. total_ops. Qed.

Lemma total_handleRecovery : total _handleRecovery.
Proof. total_ops. Qed.

Lemma total_handleReset (r : Response.t) : total (_handleReset r).
Proof. total_ops. Qed.

Lemma total_disconnect : total disconnect.
Proof. total_ops. Qed.

(** ** One exchange with the endpoint *)

Lemma apiCall_run (req : Request) (w : World) :
  _apiCall req w = settleFetch (addTrace (Await (client w)) (addTrace (Fetch req) w)).
Proof. reflexivity. Qed.

Lemma apiCall_client (req : Request) (w : World) :
  client (snd (_apiCall req w)) = client w.
Proof.
  rewrite apiCall_run. unfold settleFetch. simpl.
  destruct (fetchInbox w) as [|[]]; reflexivity.
Qed.

Lemma apiCall_trace (req : Request) (w : World) :
  trace (snd (_apiCall req w)) = (trace w ++ [Fetch req; Await (client w)])%list.
Proof.
  rewrite apiCall_run. unfold settleFetch. simpl.
  destruct (fetchInbox w) as [|[]]; simpl; now rewrite <- app_assoc.
Qed.

Lemma bind_getClient {B} (k : Client -> M B) (w : World) :
  bind getClient k w = k (client w) w.
Proof. reflexivity. Qed.

Lemma bind_ret_run {A B} (m : M A) (k : A -> M B) (w w' : World) (a : A) :
  m w = (Ret a, w') -> bind m k w = k a w'.
Proof. intros H. unfold bind. now rewrite H. Qed.

Lemma bind_throw_run {A B} (m : M A) (k : A -> M B) (w w' : World) (e : Error) :
  m w = (Throw e, w') -> bind m k w = (Throw e, w').
Proof. intros H. unfold bind. now rewrite H. Qed.

Lemma bind_stall_run {A B} (m : M A) (k : A -> M B) (w w' : World) :
  m w = (Stall, w') -> bind m k w = (Stall, w').
Proof. intros H. unfold bind. now rewrite H. Qed.

(** A tick whose request is answered with [r]. *)
Lemma poll_answered (w w1 : World) (r : Response.t) :
  _apiCall (pollRequest (client w)) w = (Ret r, w1) ->
  _poll w = try_catch (onPollResponse r) (fun error => effect (ConsoleWarn error)) w1.
Proof.
  intros H. unfold _poll, pollBody, try_catch.
  unfold bind at 1. unfold getClient. cbv beta iota.
  unfold bind at 1. now rewrite H.
Qed.

(** A tick whose request fails: the error is logged, nothing else. *)
Lemma poll_failed (w w1 : World) (e : Error) :
  _apiCall (pollRequest (client w)) w = (Throw e, w1) ->
  _poll w = (Ret tt, addTrace (ConsoleWarn e) w1).
Proof.
  intros H. unfold _poll, pollBody, try_catch.
  unfold bind at 1. unfold getClient. cbv beta iota.
  unfold bind at 1. now rewrite H.
Qed.

(** A tick whose request is never answered stays suspended. *)
Lemma poll_unanswered (w w1 : World) :
  _apiCall (pollRequest (client w)) w = (Stall, w1) ->
  _poll w = (Stall, w1).
Proof.
  intros H. unfold _poll, pollBody, try_catch.
  unfold bind at 1. unfold getClient. cbv beta iota.
  unfold bind at 1. now rewrite H.
Qed.

(** ** Registration calls in the trace *)

Lemma registerCalls_app (t1 t2 : list Effect) :
  registerCalls (t1 ++ t2) = registerCalls t1 + registerCalls t2.
Proof.
  unfold registerCalls, requests.
  now rewrite flat_map_app, filter_app, length_app.
Qed.

Lemma anyTrace_grows (w w' : World) :
  rel anyTrace w w' -> registerCalls (trace w) <= registerCalls (trace w').
Proof.
  intros [t [E _]]. unfold extends in E. rewrite E, registerCalls_app. lia.
Qed.

Lemma poll_anyTrace : stable anyTrace _poll.
Proof. stable_ops any_side. Qed.

Lemma onRegistered_anyTrace (r : Response.t) : stable anyTrace (onRegistered r).
Proof. stable_ops any_side. Qed.

Lemma forgetSession_anyTrace : stable anyTrace forgetSession.
Proof. stable_ops any_side. Qed.

(** [register] starts by sending its request. *)
Lemma register_first (w : World) :
  register w =
  try_catch (suspend ;; (response <- settleFetch ;; onRegistered response))
    (fun error => emit (EvError error) ;; throw error)
    (addTrace (Fetch (registerRequest (client w))) w).
Proof. reflexivity. Qed.

Lemma register_calls (w : World) :
  registerCalls (trace w) < registerCalls (trace (snd (register w))).
Proof.
  rewrite register_first.
  match goal with |- _ < registerCalls (trace (snd (?m ?w1))) =>
    assert (S : stable anyTrace m) by stable_ops any_side;
    pose proof (S w1) as H
  end.
  apply anyTrace_grows in H. simpl in H. rewrite registerCalls_app in H.
  change (registerCalls [Fetch (registerRequest (client w))]) with 1 in H. lia.
Qed.

Lemma autoReconnect_calls (w : World) :
  registerCalls (trace w) < registerCalls (trace (snd (_handleAutoReconnect w))).
Proof.
  unfold _handleAutoReconnect.
  destruct (bind_total (fun _ => try_catch register reconnectHandler)
              w total_forgetSession) as [[] ->].
  pose proof (anyTrace_grows (forgetSession_anyTrace w)) as G.
  pose proof (register_calls (snd (forgetSession w))) as L.
  unfold try_catch.
  destruct (register (snd (forgetSession w))) as [[[]|e|] w2]; simpl in *; try lia.
  rewrite !registerCalls_app. lia.
Qed.

(** ** Status once [connected] *)

Ltac keeps_ops := stable_ops keeps_side.

Lemma apiCall_keeps {T} (p : Client -> T) (req : Request) : stable (keeps p) (_apiCall req).
Proof. keeps_ops. Qed.

Lemma routeResponse_keeps_status (r : Response.t) : stable (keeps status) (routeResponse r).
Proof. keeps_ops. Qed.

Lemma handleRecovery_keeps_status : stable (keeps status) _handleRecovery.
Proof. keeps_ops. Qed.

(** The adoption step is skipped when the status is [connected]. *)
Lemma adoptStatus_connected (r : Response.t) (w : World) :
  status (client w) = Some "connected" -> adoptStatus r w = (Ret tt, w).
Proof.
  intros H. unfold adoptStatus, bind, getClient. now rewrite H.
Qed.

Lemma apiCall_poll_calls (c : Client) (w : World) :
  registerCalls (trace (snd (_apiCall (pollRequest c) w))) = registerCalls (trace w).
Proof.
  rewrite apiCall_trace, registerCalls_app.
  change (registerCalls [Fetch (pollRequest c); Await (client w)]) with 0. lia.
Qed.

(** A tick entered with status [connected] leaves it so, unless the tick
    registers again. *)
Lemma poll_connected (w : World) :
  status (client w) = Some "connected" ->
  status (client (snd (_poll w))) = Some "connected" \/
  registerCalls (trace w) < registerCalls (trace (snd (_poll w))).
Proof.
  intros H.
  pose proof (apiCall_keeps status (pollRequest (client w)) w) as K.
  pose proof (apiCall_poll_calls (client w) w) as G.
  destruct (_apiCall (pollRequest (client w)) w) as [[r|e|] w1] eqn:E;
    simpl in K, G.
  - rewrite (poll_answered _ E).
    unfold try_catch, onPollResponse.
    destruct (Response.success r); simpl.
    + (* a successful response: recovery and routing never write the status *)
      left.
      assert (S : stable (keeps status)
                    (c <- getClient ;;
                     (if sentBackToWaitOffer r c then _handleRecovery else ret tt) ;;
                     routeResponse r)).
      { apply stable_bind; [apply stable_getClient | intros c].
        apply stable_bind; [| intros _; apply routeResponse_keeps_status].
        destruct (sentBackToWaitOffer r c);
          [apply handleRecovery_keeps_status | apply stable_ret]. }
      specialize (S w1). simpl in S.
      unfold bind at 1 in S. unfold getClient in S. cbv beta iota in S.
      unfold onPollSuccess.
      unfold bind at 1. unfold getClient. cbv beta iota.
      unfold bind at 1.
      destruct ((if sentBackToWaitOffer r (client w1) then _handleRecovery else ret tt) w1)
        as [[[]|e|] w2] eqn:E2; simpl in *.
      * unfold bind at 1. unfold bind at 1 in S. rewrite E2 in S.
        destruct (routeResponse r w2) as [[[]|e|] w3] eqn:E3; simpl in *.
        -- rewrite adoptStatus_connected by congruence. simpl. congruence.
        -- congruence.
        -- congruence.
      * unfold bind at 1 in S. rewrite E2 in S. simpl in S. congruence.
      * unfold bind at 1 in S. rewrite E2 in S. simpl in S. congruence.
    + destruct (asksToRegister r).
      * right.
        pose proof (autoReconnect_calls w1) as L.
        destruct (_handleAutoReconnect w1) as [[[]|e|] w2]; simpl in *; try lia.
        rewrite registerCalls_app. lia.
      * left. simpl. congruence.
  - left. rewrite (poll_failed _ E). simpl. congruence.
  - left. rewrite (poll_unanswered _ E). simpl. congruence.
Qed.

Lemma pollTicks_plus (a b : nat) (w : World) :
  pollTicks (a + b) w = pollTicks b (pollTicks a w).
Proof.
  revert w. induction a as [|a IH]; intros w; simpl; [reflexivity | apply IH].
Qed.

Lemma pollTicks_grows (n : nat) (w : World) :
  registerCalls (trace w) <= registerCalls (trace (pollTicks n w)).
Proof.
  revert w. induction n as [|n IH]; intros w; simpl; [lia|].
  pose proof (anyTrace_grows (poll_anyTrace w)).
  specialize (IH (snd (_poll w))). lia.
Qed.

Lemma pollTicks_connected (n : nat) (w : World) :
  status (client w) = Some "connected" ->
  registerCalls (trace (pollTicks n w)) = registerCalls (trace w) ->
  status (client (pollTicks n w)) = Some "connected".
Proof.
  revert w. induction n as [|n IH]; intros w H E; simpl in *; [exact H|].
  pose proof (anyTrace_grows (poll_anyTrace w)) as G1.
  pose proof (pollTicks_grows n (snd (_poll w))) as G2.
  apply IH; [| lia].
  destruct (poll_connected w H) as [C|L]; [exact C | lia].
Qed.

(** ** Sample clients and responses *)

Definition sampleSettings : Settings :=
  {| apiUrl := "https://script.example/exec"; name := "Alice"; globalIp := "";
     friendList := []; passphrase := ""; pollingInterval := 2000 |}.

Definition bob : Peer.t := {| Peer.id := "u2"; Peer.name := "Bob" |}.

(** Registered as [u1], waiting, the polling timer [1] running. *)
Definition waitingClient : Client :=
  {| settings := sampleSettings; id := Some "u1"; status := Some "wait_offer";
     peerId := None; peerName := None; matchList := []; isConnected := false;
     _pollingTimer := Some 1; _peerConnection := None; _dataChannel := None;
     _pendingCandidates := []; _isOfferer := false; _isProcessingSignal := false |}.

(** Negotiating with [u2]: a peer connection and a data channel exist. *)
Definition negotiatingClient : Client :=
  {| settings := sampleSettings; id := Some "u1"; status := Some "wait_answer";
     peerId := Some "u2"; peerName := Some "Bob"; matchList := [bob];
     isConnected := false; _pollingTimer := Some 1;
     _peerConnection := Some {| localDescription := Some "offer-sdp"; connectionState := "connecting" |};
     _dataChannel := Some {| readyState := "connecting" |};
     _pendingCandidates := ["cand-1"]; _isOfferer := true; _isProcessingSignal := false |}.

(** Connected to [u2]: the timer was stopped when the connection came up. *)
Definition connectedClient : Client :=
  {| settings := sampleSettings; id := Some "u1"; status := Some "connected";
     peerId := Some "u2"; peerName := Some "Bob"; matchList := [bob];
     isConnected := true; _pollingTimer := None;
     _peerConnection := Some {| localDescription := Some "offer-sdp"; connectionState := "connected" |};
     _dataChannel := Some {| readyState := "open" |};
     _pendingCandidates := []; _isOfferer := true; _isProcessingSignal := false |}.

(** A response with only [success], [next_status] and [message]. *)
Definition reply (success : bool) (next_status message : option string) : Response.t :=
  {| Response.success := success; Response.message := message;
     Response.next_status := next_status; Response.id := None;
     Response.match_list := None; Response.type := None; Response.sdp := None;
     Response.candidates := None; Response.peer_id := None; Response.peer_name := None |}.

(** A successful registration response assigning [id0]. *)
Definition registeredAs (id0 : string) (next_status : string) : Response.t :=
  {| Response.success := true; Response.message := None;
     Response.next_status := Some next_status; Response.id := Some id0;
     Response.match_list := Some []; Response.type := None; Response.sdp := None;
     Response.candidates := None; Response.peer_id := None; Response.peer_name := None |}.

(** A successful polling response carrying a match list and a [type]. *)
Definition matchReply (next_status : string) (type : option string) (l : list Peer.t) : Response.t :=
  {| Response.success := true; Response.message := None;
     Response.next_status := Some next_status; Response.id := None;
     Response.match_list := Some l; Response.type := type; Response.sdp := None;
     Response.candidates := None; Response.peer_id := None; Response.peer_name := None |}.

Definition worldOf (c : Client) (fetches : list FetchResult) (rtcs : list RtcResult) : World :=
  {| client := c; trace := []; fetchInbox := fetches; rtcInbox := rtcs; timers := 1 |}.

(** ** C1: the status once [connected] *)

(** C1, as amended.  For every sequence of polling ticks started with status
    [connected] and in which no registration call is made (no tick takes the
    auto-reconnect path), the status is [connected] after every tick of the
    sequence, and there the adoption step of lines 357-359 changes nothing,
    whatever [next_status] the response carries. *)
Theorem connected_status_kept (n k : nat) (w : World) (r : Response.t) :
  status (client w) = Some "connected" ->
  registerCalls (trace (pollTicks n w)) = registerCalls (trace w) ->
  k <= n ->
  status (client (pollTicks k w)) = Some "connected" /\
  adoptStatus r (pollTicks k w) = (Ret tt, pollTicks k w).
Proof.
  intros H E Hk.
  assert (C : status (client (pollTicks k w)) = Some "connected").
  { apply pollTicks_connected; [exact H|].
    pose proof (pollTicks_grows k w) as G1.
    pose proof (pollTicks_grows (n - k) (pollTicks k w)) as G2.
    rewrite <- pollTicks_plus in G2.
    replace (k + (n - k)) with n in G2 by lia. lia. }
  split; [exact C | now apply adoptStatus_connected].
Qed.

(** Three stale answers to a connected client: a failure that does not ask
    for registration, then two successes naming earlier states (the first
    of them also starts the recovery of lines 333-336). *)
Definition staleWorld : World :=
  worldOf connectedClient
    [Body (reply false (Some "wait_offer") (Some "busy"));
     Body (reply true (Some "wait_offer") None);
     Body (matchReply "negotiating" None [bob])] [].

Lemma connected_status_kept_witness :
  status (client (pollTicks 3 staleWorld)) = Some "connected" /\
  adoptStatus (reply true (Some "wait_offer") None) (pollTicks 3 staleWorld)
  = (Ret tt, pollTicks 3 staleWorld).
Proof.
  apply (@connected_status_kept 3 3 staleWorld (reply true (Some "wait_offer") None)).
  - reflexivity.
  - vm_compute. reflexivity.
  - lia.
Defined.

(** A connected client whose next poll is answered "register again", whose
    registration succeeds, and whose following poll is answered
    [wait_answer]. *)
Definition reconnectWorld : World :=
  worldOf connectedClient
    [Body (reply false (Some "register") None);
     Body (registeredAs "u7" "wait_offer");
     Body (reply true (Some "wait_answer") None)] [].

(** C1 as stated fails: the status has reached [connected], yet the first
    tick leaves it at the registration's [wait_offer] and the second tick
    overwrites it with its polling response's [next_status]. *)
Lemma connected_status_overwritten_after_reconnect :
  status (client reconnectWorld) = Some "connected" /\
  status (client (pollTicks 1 reconnectWorld)) = Some "wait_offer" /\
  status (client (pollTicks 2 reconnectWorld)) = Some "wait_answer".
Proof. repeat split; vm_compute; reflexivity. Qed.

(** ** Effects that a view of the trace does not show *)

Lemma flat_map_silent {X} (f : Effect -> list X) (t0 t : list Effect) :
  Forall (fun e => f e = []) t -> flat_map f (t0 ++ t) = flat_map f t0.
Proof.
  intros H. rewrite flat_map_app.
  replace (flat_map f t) with (@nil X); [apply app_nil_r|].
  induction H as [|e t He _ IH]; simpl; [reflexivity | now rewrite He].
Qed.

(** No request is sent. *)
Definition noFetch : Invariant :=
  adds (fun e => asRequest e = []) (fun _ => eq_refl) (fun _ _ => eq_refl).

(** No [error] event is emitted. *)
Definition noError : Invariant :=
  adds (fun e => asError e = []) (fun _ => eq_refl) (fun _ _ => eq_refl).

Ltac view_side := simpl; reflexivity.

Lemma noFetch_requests (w w' : World) :
  rel noFetch w w' -> requests (trace w') = requests (trace w).
Proof.
  intros [t [E F]]. unfold extends in E. rewrite E. now apply flat_map_silent.
Qed.

Lemma noError_errorEvents (w w' : World) :
  rel noError w w' -> errorEvents (trace w') = errorEvents (trace w).
Proof.
  intros [t [E F]]. unfold extends in E. rewrite E. now apply flat_map_silent.
Qed.

Lemma forgetSession_noFetch : stable noFetch forgetSession.
Proof. stable_ops view_side. Qed.

Lemma forgetSession_noError : stable noError forgetSession.
Proof. stable_ops view_side. Qed.

(** What [forgetSession] leaves. *)
Lemma forgetSession_spec (w : World) :
  let w2 := snd (forgetSession w) in
  _peerConnection (client w2) = None /\
  _dataChannel (client w2) = None /\
  id (client w2) = None /\
  peerId (client w2) = None /\
  peerName (client w2) = None /\
  matchList (client w2) = [] /\
  _pendingCandidates (client w2) = [] /\
  _isProcessingSignal (client w2) = false /\
  _pollingTimer (client w2) = None.
Proof.
  destruct w as [[s i st p pn ml ic [pt|] [pc|] [dc|] pend io f] t fi ri n];
    cbv - [app]; repeat split; reflexivity.
Qed.

Lemma forgetSession_pollingTimer (w : World) :
  _pollingTimer (client (snd (forgetSession w))) = None.
Proof. apply forgetSession_spec. Qed.

(** After its request, [register] sends nothing more. *)
Lemma register_requests (w : World) :
  requests (trace (snd (register w))) =
  (requests (trace w) ++ [registerRequest (client w)])%list.
Proof.
  rewrite register_first.
  match goal with |- requests (trace (snd (?m ?w1))) = _ =>
    assert (S : stable noFetch m) by stable_ops view_side;
    pose proof (noFetch_requests (S w1)) as H
  end.
  rewrite H. simpl. unfold requests. now rewrite flat_map_app.
Qed.

(** [register] emits [error] only when it throws. *)
Lemma register_errors (w : World) :
  (exists e, fst (register w) = Throw e) \/
  errorEvents (trace (snd (register w))) = errorEvents (trace w).
Proof.
  unfold register.
  match goal with |- context [try_catch ?m ?h] =>
    assert (S : stable noError m) by stable_ops view_side;
    pose proof (noError_errorEvents (S w)) as H;
    unfold try_catch; destruct (m w) as [[[]|e|] w1]
  end; simpl in *.
  - right. exact H.
  - left. now exists e.
  - right. exact H.
Qed.

(** The auto-reconnect path never throws. *)
Lemma reconnect_never_throws (w : World) :
  fst (try_catch register reconnectHandler w) = Ret tt \/
  fst (try_catch register reconnectHandler w) = Stall.
Proof.
  unfold try_catch. destruct (register w) as [[[]|e|] w1]; simpl; auto.
Qed.

Lemma handleAutoReconnect_run (w : World) :
  _handleAutoReconnect w = try_catch register reconnectHandler (snd (forgetSession w)).
Proof.
  unfold _handleAutoReconnect.
  destruct (bind_total (fun _ => try_catch register reconnectHandler)
              w total_forgetSession) as [[] ->].
  reflexivity.
Qed.

Lemma try_catch_no_throw {A} (m : M A) (h : Error -> M A) (w : World) :
  (forall e, fst (m w) = Throw e -> False) -> try_catch m h w = m w.
Proof.
  intros H. unfold try_catch. destruct (m w) as [[a|e|] w1]; try reflexivity.
  exfalso. now apply (H e).
Qed.

(** A tick answered with a failure that asks for registration is the
    auto-reconnect path. *)
Lemma poll_reconnect_run (w w1 : World) (r : Response.t) :
  _apiCall (pollRequest (client w)) w = (Ret r, w1) ->
  Response.success r = false ->
  asksToRegister r = true ->
  _poll w = try_catch register reconnectHandler (snd (forgetSession w1)).
Proof.
  intros E F A. rewrite (poll_answered _ E). unfold onPollResponse.
  rewrite F, A. cbn [negb].
  rewrite try_catch_no_throw; [apply handleAutoReconnect_run|].
  intros e. rewrite handleAutoReconnect_run.
  destruct (reconnect_never_throws (snd (forgetSession w1))) as [-> | ->]; discriminate.
Qed.

Lemma onRegistered_ok (r : Response.t) :
  Response.success r = true -> total (onRegistered r).
Proof. intros H. unfold onRegistered. rewrite H. cbn [negb]. total_ops. Qed.

(** Only a registration that returns starts the polling timer. *)
Lemma register_leaves_timer (w : World) :
  _pollingTimer (client w) = None ->
  fst (register w) = Ret tt \/ _pollingTimer (client (snd (register w))) = None.
Proof.
  intros H. unfold register, try_catch. rewrite bind_getClient.
  pose proof (apiCall_client (registerRequest (client w)) w) as C.
  destruct (_apiCall (registerRequest (client w)) w) as [[r|e|] w1] eqn:E; simpl in C.
  - erewrite bind_ret_run by exact E.
    destruct (Response.success r) eqn:S.
    + left. destruct (@onRegistered_ok r S w1) as [[] Ha].
      destruct (onRegistered r w1) as [o w2]. simpl in Ha. subst o. reflexivity.
    + right. unfold onRegistered. rewrite S. simpl. congruence.
  - right. erewrite bind_throw_run by exact E. simpl. congruence.
  - right. erewrite bind_stall_run by exact E. simpl. congruence.
Qed.

(** ** C2: a failed polling response *)

(** C2, as amended.  When the polling request of a tick is answered with a
    response [r] whose [success] is false, the tick takes the auto-reconnect
    path exactly when [r.next_status] is [register] or [r.message] is
    [ユーザーが見つかりません] ([asksToRegister], line 325).  On that path the
    tick is: forget the session (the transport is dropped, the [id] cleared
    and the polling timer stopped), then [register] again, its request
    carrying no [id]; an [error] event is emitted only if that registration
    throws.  Any other
    failed response ends the tick with the client as it was and no further
    request. *)
Theorem failed_poll_reconnects (w w1 : World) (r : Response.t) :
  _apiCall (pollRequest (client w)) w = (Ret r, w1) ->
  Response.success r = false ->
  if asksToRegister r then
    let w2 := snd (forgetSession w1) in
    _poll w = try_catch register reconnectHandler w2 /\
    (_peerConnection (client w2) = None /\
     _dataChannel (client w2) = None /\
     id (client w2) = None /\
     _pollingTimer (client w2) = None) /\
    requests (trace (snd (_poll w))) =
      (requests (trace w) ++ [pollRequest (client w); registerRequest (client w2)])%list /\
    ((exists e, fst (register w2) = Throw e) \/
     errorEvents (trace (snd (_poll w))) = errorEvents (trace w))
  else
    _poll w = (Ret tt, w1) /\
    client w1 = client w /\
    requests (trace w1) = (requests (trace w) ++ [pollRequest (client w)])%list.
Proof.
  intros E F.
  pose proof (apiCall_client (pollRequest (client w)) w) as C.
  pose proof (apiCall_trace (pollRequest (client w)) w) as T.
  rewrite E in C, T. simpl in C, T.
  assert (Q : requests (trace w1) = (requests (trace w) ++ [pollRequest (client w)])%list).
  { rewrite T. unfold requests. now rewrite flat_map_app. }
  assert (X : errorEvents (trace w1) = errorEvents (trace w)).
  { rewrite T. unfold errorEvents. rewrite flat_map_app. simpl. apply app_nil_r. }
  rewrite (poll_answered _ E). unfold onPollResponse. rewrite F. simpl.
  destruct (asksToRegister r) eqn:A.
  - cbv zeta. set (w2 := snd (forgetSession w1)).
    assert (P : try_catch (onPollResponse r) (fun error => effect (ConsoleWarn error)) w1
                = try_catch register reconnectHandler w2).
    { rewrite <- (@poll_answered w w1 r E). exact (@poll_reconnect_run w w1 r E F A). }
    unfold onPollResponse in P. rewrite F, A in P. cbn [negb] in P.
    rewrite P.
    pose proof (noFetch_requests (forgetSession_noFetch w1)) as Q2.
    pose proof (noError_errorEvents (forgetSession_noError w1)) as X2.
    fold w2 in Q2, X2.
    pose proof (register_requests w2) as Q3.
    pose proof (register_errors w2) as X3.
    split; [reflexivity|].
    split; [destruct (forgetSession_spec w1) as (S1 & S2 & S3 & _ & _ & _ & _ & _ & S9);
            repeat split; assumption|].
    unfold try_catch.
    destruct (register w2) as [[[]|e|] w3]; simpl in *.
    + split.
      * rewrite Q3, Q2, Q, <- app_assoc. reflexivity.
      * destruct X3 as [[e He]|X3]; [discriminate He|]. right. congruence.
    + split.
      * unfold requests in *. rewrite !flat_map_app. simpl.
        rewrite Q3, Q2, Q, <- !app_assoc. reflexivity.
      * left. now exists e.
    + split.
      * rewrite Q3, Q2, Q, <- app_assoc. reflexivity.
      * destruct X3 as [[e He]|X3]; [discriminate He|]. right. congruence.
  - repeat split; assumption.
Qed.

(** The first answer asks for registration; registration then succeeds. *)
Definition askedToRegisterWorld : World :=
  worldOf negotiatingClient
    [Body (reply false (Some "register") None);
     Body (registeredAs "u7" "wait_offer")] [].

Lemma failed_poll_reconnects_witness :
  let w := askedToRegisterWorld in
  let w1 := snd (_apiCall (pollRequest (client w)) w) in
  let w2 := snd (forgetSession w1) in
  _poll w = try_catch register reconnectHandler w2 /\
  (_peerConnection (client w2) = None /\
   _dataChannel (client w2) = None /\
   id (client w2) = None /\
   _pollingTimer (client w2) = None) /\
  requests (trace (snd (_poll w))) =
    (requests (trace w) ++ [pollRequest (client w); registerRequest (client w2)])%list /\
  ((exists e, fst (register w2) = Throw e) \/
   errorEvents (trace (snd (_poll w))) = errorEvents (trace w)).
Proof.
  exact (@failed_poll_reconnects askedToRegisterWorld
           (snd (_apiCall (pollRequest (client askedToRegisterWorld)) askedToRegisterWorld))
           (reply false (Some "register") None) eq_refl eq_refl).
Defined.

(** The failure the specification's scenario names, and the one the code
    tests for. *)
Definition sessionNotFoundWorld : World :=
  worldOf waitingClient
    [Body (reply false None (Some "session not found"));
     Body (registeredAs "u7" "wait_offer")] [].

Definition userNotFoundWorld : World :=
  worldOf waitingClient
    [Body (reply false None (Some "ユーザーが見つかりません"));
     Body (registeredAs "u7" "wait_offer")] [].

(** C2 as stated fails: a failed response with message [session not found]
    is ignored (the client is unchanged and only the polling request was
    sent), while the message the code tests for starts a registration. *)
Lemma session_not_found_is_ignored :
  client (snd (_poll sessionNotFoundWorld)) = waitingClient /\
  requests (trace (snd (_poll sessionNotFoundWorld))) = [pollRequest waitingClient] /\
  requests (trace (snd (_poll userNotFoundWorld))) =
    [pollRequest waitingClient; ReqRegister None "Alice" "" [] ""].
Proof. repeat split; vm_compute; reflexivity. Qed.

(** ** C3: recovery when sent back to [wait_offer] *)

(** No registration request is sent. *)
Definition noRegister : Invariant :=
  adds (fun e => filter isRegister (asRequest e) = []) (fun _ => eq_refl) (fun _ _ => eq_refl).

Lemma noRegister_calls (w w' : World) :
  rel noRegister w w' -> registerCalls (trace w') = registerCalls (trace w).
Proof.
  intros [t [E F]]. unfold extends in E. rewrite E, registerCalls_app.
  replace (registerCalls t) with 0; [lia|].
  unfold registerCalls, requests. clear E.
  induction F as [|e t He _ IH]; simpl; [reflexivity|].
  rewrite filter_app, length_app, He. simpl. exact IH.
Qed.

(** What [_handleRecovery] leaves. *)
Lemma handleRecovery_spec (w : World) :
  let w2 := snd (_handleRecovery w) in
  _peerConnection (client w2) = None /\
  _dataChannel (client w2) = None /\
  peerId (client w2) = None /\
  peerName (client w2) = None /\
  matchList (client w2) = [] /\
  _pendingCandidates (client w2) = [] /\
  _isProcessingSignal (client w2) = false /\
  id (client w2) = id (client w) /\
  status (client w2) = status (client w) /\
  _pollingTimer (client w2) = _pollingTimer (client w) /\
  trace w2 =
    (trace w ++
     (match _dataChannel (client w) with Some _ => [DcClose] | None => [] end) ++
     (match _peerConnection (client w) with Some _ => [PcClose] | None => [] end))%list.
Proof.
  destruct w as [[s i st p pn ml ic pt [pc|] [dc|] pend io f] t fi ri n];
    cbn; rewrite <- ?app_assoc, ?app_nil_r; repeat split; reflexivity.
Qed.

(** C3, as amended.  When the polling request of a tick is answered with a
    response [r] with [success] true and [next_status] equal to [wait_offer],
    while a non-empty [peerId] is assigned and [_isProcessingSignal] is
    false, the tick first runs [_handleRecovery]: the data channel and the
    peer connection are closed and dropped, [peerId], [peerName], the match
    list and the pending candidates are cleared, [id] and the polling timer
    are left as they were.  The tick then goes on with the dispatch on
    [r.type] and the status adoption, from the recovered client.  Over the
    whole tick the [id] and the polling timer are unchanged and no
    registration request is sent. *)
Theorem poll_soft_recovery (w w1 : World) (r : Response.t) :
  _apiCall (pollRequest (client w)) w = (Ret r, w1) ->
  Response.success r = true ->
  Response.next_status r = Some "wait_offer" ->
  truthy (peerId (client w)) = true ->
  _isProcessingSignal (client w) = false ->
  let w2 := snd (_handleRecovery w1) in
  _poll w = try_catch (routeResponse r ;; adoptStatus r)
              (fun error => effect (ConsoleWarn error)) w2 /\
  (_peerConnection (client w2) = None /\
   _dataChannel (client w2) = None /\
   peerId (client w2) = None /\
   peerName (client w2) = None /\
   matchList (client w2) = [] /\
   _pendingCandidates (client w2) = [] /\
   id (client w2) = id (client w) /\
   _pollingTimer (client w2) = _pollingTimer (client w) /\
   trace w2 =
     (trace w1 ++
      (match _dataChannel (client w) with Some _ => [DcClose] | None => [] end) ++
      (match _peerConnection (client w) with Some _ => [PcClose] | None => [] end))%list) /\
  (id (client (snd (_poll w))) = id (client w) /\
   _pollingTimer (client (snd (_poll w))) = _pollingTimer (client w) /\
   registerCalls (trace (snd (_poll w))) = registerCalls (trace w)).
Proof.
  intros E Hs Hn Hp Hf w2.
  pose proof (apiCall_client (pollRequest (client w)) w) as C.
  pose proof (apiCall_poll_calls (client w) w) as G.
  rewrite E in C, G. simpl in C, G.
  destruct (handleRecovery_spec w1)
    as (R1 & R2 & R3 & R4 & R5 & R6 & _ & R8 & _ & R10 & R11).
  fold w2 in R1, R2, R3, R4, R5, R6, R8, R10, R11. rewrite C in R8, R10, R11.
  assert (P : _poll w = try_catch (routeResponse r ;; adoptStatus r)
                          (fun error => effect (ConsoleWarn error)) w2).
  { rewrite (poll_answered _ E). unfold try_catch.
    replace (onPollResponse r w1) with ((routeResponse r ;; adoptStatus r) w2); [reflexivity|].
    unfold onPollResponse, onPollSuccess. rewrite Hs. cbn [negb]. rewrite bind_getClient.
    assert (B : sentBackToWaitOffer r (client w1) = true).
    { unfold sentBackToWaitOffer, isStr. rewrite C, Hn, Hp, Hf. reflexivity. }
    rewrite B.
    destruct (bind_total (fun _ => routeResponse r ;; adoptStatus r) w1 total_handleRecovery)
      as [[] ->].
    reflexivity. }
  split; [exact P|]. split; [repeat split; assumption|].
  rewrite P.
  assert (K1 : stable (keeps id) (try_catch (routeResponse r ;; adoptStatus r)
                 (fun error => effect (ConsoleWarn error)))) by keeps_ops.
  assert (K2 : stable (keeps _pollingTimer) (try_catch (routeResponse r ;; adoptStatus r)
                 (fun error => effect (ConsoleWarn error)))) by keeps_ops.
  assert (K3 : stable noRegister (try_catch (routeResponse r ;; adoptStatus r)
                 (fun error => effect (ConsoleWarn error)))) by stable_ops view_side.
  pose proof (keeps_rel (K1 w2)) as K1'. pose proof (keeps_rel (K2 w2)) as K2'.
  pose proof (noRegister_calls (K3 w2)) as K3'.
  assert (K4 : stable noRegister _handleRecovery) by stable_ops view_side.
  pose proof (noRegister_calls (K4 w1)) as K4'. fold w2 in K4'.
  repeat split; congruence.
Qed.

(** A negotiating client told [wait_offer] by a successful response. *)
Definition sentBackWorld : World :=
  worldOf negotiatingClient [Body (reply true (Some "wait_offer") (Some "peer left"))] [].

Lemma poll_soft_recovery_witness :
  let w := sentBackWorld in
  let r := reply true (Some "wait_offer") (Some "peer left") in
  let w1 := snd (_apiCall (pollRequest (client w)) w) in
  let w2 := snd (_handleRecovery w1) in
  _poll w = try_catch (routeResponse r ;; adoptStatus r)
              (fun error => effect (ConsoleWarn error)) w2 /\
  (_peerConnection (client w2) = None /\
   _dataChannel (client w2) = None /\
   peerId (client w2) = None /\
   peerName (client w2) = None /\
   matchList (client w2) = [] /\
   _pendingCandidates (client w2) = [] /\
   id (client w2) = id (client w) /\
   _pollingTimer (client w2) = _pollingTimer (client w) /\
   trace w2 =
     (trace w1 ++
      (match _dataChannel (client w) with Some _ => [DcClose] | None => [] end) ++
      (match _peerConnection (client w) with Some _ => [PcClose] | None => [] end))%list) /\
  (id (client (snd (_poll w))) = id (client w) /\
   _pollingTimer (client (snd (_poll w))) = _pollingTimer (client w) /\
   registerCalls (trace (snd (_poll w))) = registerCalls (trace w)).
Proof.
  exact (@poll_soft_recovery sentBackWorld
           (snd (_apiCall (pollRequest (client sentBackWorld)) sentBackWorld))
           (reply true (Some "wait_offer") (Some "peer left"))
           eq_refl eq_refl eq_refl eq_refl eq_refl).
Defined.

(** The same client told [waiting_for_offer], the name the specification
    uses for that state. *)
Definition waitingForOfferWorld : World :=
  worldOf negotiatingClient [Body (reply true (Some "waiting_for_offer") None)] [].

(** The same client sent back to [wait_offer] by a response that also
    delivers an offer from [u9]. *)
Definition sentBackWithOfferWorld : World :=
  worldOf negotiatingClient
    [Body {| Response.success := true; Response.message := None;
             Response.next_status := Some "wait_offer"; Response.id := None;
             Response.match_list := None; Response.type := Some "offer";
             Response.sdp := Some "offer-from-u9"; Response.candidates := None;
             Response.peer_id := Some "u9"; Response.peer_name := Some "Carol" |};
     Body (reply true (Some "wait_offer") None)]
    [RtcOk ""; RtcOk "answer-sdp"; RtcOk ""].

(** C3 as stated fails: on [next_status] [waiting_for_offer] no recovery is
    run; the peer, the connection and the match list are kept, nothing is
    closed, and the status is simply adopted.  And on [wait_offer] the
    recovery is only the first step of the tick: when the response also
    delivers an offer, the tick ends with the new peer assigned and a new
    connection. *)
Lemma waiting_for_offer_does_not_recover :
  peerId (client (snd (_poll waitingForOfferWorld))) = Some "u2" /\
  _peerConnection (client (snd (_poll waitingForOfferWorld))) =
    _peerConnection negotiatingClient /\
  matchList (client (snd (_poll waitingForOfferWorld))) = [bob] /\
  status (client (snd (_poll waitingForOfferWorld))) = Some "waiting_for_offer" /\
  trace (snd (_poll waitingForOfferWorld)) =
    [Fetch (pollRequest negotiatingClient); Await negotiatingClient] /\
  peerId (client (snd (_poll sentBackWithOfferWorld))) = Some "u9" /\
  peerName (client (snd (_poll sentBackWithOfferWorld))) = Some "Carol" /\
  _peerConnection (client (snd (_poll sentBackWithOfferWorld))) =
    Some {| localDescription := Some "answer-sdp"; connectionState := "new" |}.
Proof. repeat split; vm_compute; reflexivity. Qed.

(** ** C4: the processing flag *)








(** ICE candidates arrive for a negotiating client whose flag is down, and
    for one whose flag is up (an offer of its own is in flight). *)
Definition iceResponse : Response.t :=
  {| Response.success := true; Response.message := None;
     Response.next_status := Some "wait_answer"; Response.id := None;
     Response.match_list := None; Response.type := Some "ice"; Response.sdp := None;
     Response.candidates := Some ["remote-cand"]; Response.peer_id := None;
     Response.peer_name := None |}.




(** ** C5: [disconnect] twice *)

(** The fields [disconnect] writes (lines 234-250). *)
Definition afterDisconnect (c : Client) : Client :=
  set_isProcessingSignal false
    (set_peerName None
       (set_peerId None
          (set_isConnected false
             (set_status (Some "disconnected")
                (set_peerConnection None
                   (set_dataChannel None
                      (set_pollingTimer None c))))))).

(** What [disconnect] stops and closes: the timer, the data channel and the
    peer connection, each if present. *)
Definition closing (c : Client) : list Effect :=
  (match _pollingTimer c with Some t => [ClearInterval t] | None => [] end ++
   match _dataChannel c with Some _ => [DcClose] | None => [] end ++
   match _peerConnection c with Some _ => [PcClose] | None => [] end)%list.

Lemma disconnect_run (w : World) :
  disconnect w =
  (Ret tt,
   {| client := afterDisconnect (client w);
      trace := (trace w ++ closing (client w) ++ [Emit (EvDisconnected "user")])%list;
      fetchInbox := fetchInbox w; rtcInbox := rtcInbox w; timers := timers w |}).
Proof.
  destruct w as [[s i st p pn ml ic [pt|] [pc|] [dc|] pend io f] t fi ri n];
    cbv - [app]; repeat rewrite <- app_assoc; reflexivity.
Qed.

Lemma afterDisconnect_idem (c : Client) :
  afterDisconnect (afterDisconnect c) = afterDisconnect c.
Proof. destruct c. vm_compute. reflexivity. Qed.

Lemma closing_afterDisconnect (c : Client) : closing (afterDisconnect c) = [].
Proof. destruct c. vm_compute. reflexivity. Qed.

(** C5, as amended.  A second [disconnect] right after a first one returns
    without throwing, closes nothing and leaves the client as the first call
    left it; like the first call it emits [disconnected] with reason [user],
    so the two calls emit the event twice. *)
Theorem disconnect_twice (w : World) :
  let w1 := snd (disconnect w) in
  let w2 := snd (disconnect w1) in
  fst (disconnect w) = Ret tt /\
  fst (disconnect w1) = Ret tt /\
  client w2 = client w1 /\
  trace w2 = (trace w1 ++ [Emit (EvDisconnected "user")])%list /\
  emitted (trace w2) =
    (emitted (trace w) ++ [EvDisconnected "user"; EvDisconnected "user"])%list.
Proof.
  cbv zeta. rewrite (disconnect_run w). cbn [fst snd].
  rewrite disconnect_run. cbn [fst snd client trace].
  rewrite afterDisconnect_idem, closing_afterDisconnect.
  repeat split.
  unfold emitted. rewrite !flat_map_app. cbn [flat_map asEvent app].
  replace (flat_map asEvent (closing (client w))) with (@nil Event).
  - rewrite app_nil_l, <- app_assoc. reflexivity.
  - unfold closing.
    destruct (_pollingTimer (client w)), (_dataChannel (client w)), (_peerConnection (client w));
      reflexivity.
Qed.

(** C5 as stated fails: two calls in a row on a connected client emit
    [disconnected] twice. *)
Lemma disconnect_twice_emits_twice :
  emitted (trace (snd (disconnect (snd (disconnect (worldOf connectedClient [] [])))))) =
    [EvDisconnected "user"; EvDisconnected "user"].
Proof. vm_compute. reflexivity. Qed.

(** ** C6: the match list *)












(** ** C7: a tick that fails *)

(** A tick never throws: the [catch] of line 361 handles what its body
    throws. *)
Lemma poll_never_throws (w : World) :
  fst (_poll w) = Ret tt \/ fst (_poll w) = Stall.
Proof.
  unfold _poll, try_catch.
  destruct (pollBody w) as [[[]|e|] w1]; simpl; auto.
Qed.

Lemma poll_caught (w w' : World) (e : Error) :
  pollBody w = (Throw e, w') -> _poll w = (Ret tt, addTrace (ConsoleWarn e) w').
Proof. intros H. unfold _poll, try_catch. now rewrite H. Qed.

(** A field that the handling of a successful response never writes is
    unchanged by a tick, unless the tick registers again. *)
Lemma poll_keeps_or_registers {T} (p : Client -> T) (w : World) :
  (forall r, stable (keeps p) (onPollSuccess r)) ->
  p (client (snd (_poll w))) = p (client w) \/
  registerCalls (trace w) < registerCalls (trace (snd (_poll w))).
Proof.
  intros S.
  pose proof (apiCall_client (pollRequest (client w)) w) as C.
  pose proof (apiCall_poll_calls (client w) w) as G.
  destruct (_apiCall (pollRequest (client w)) w) as [[r|e|] w1] eqn:E; simpl in C, G.
  - rewrite (poll_answered _ E). unfold try_catch, onPollResponse.
    destruct (Response.success r); cbn [negb].
    + left. pose proof (keeps_rel (S r w1)) as K.
      destruct (onPollSuccess r w1) as [[[]|e|] w2]; simpl in *; congruence.
    + destruct (asksToRegister r).
      * right. pose proof (autoReconnect_calls w1) as L.
        destruct (_handleAutoReconnect w1) as [[[]|e|] w2]; simpl in *; try lia.
        rewrite registerCalls_app. lia.
      * left. simpl. congruence.
  - left. rewrite (poll_failed _ E). simpl. congruence.
  - left. rewrite (poll_unanswered _ E). simpl. congruence.
Qed.

Lemma onPollSuccess_keeps_pollingTimer (r : Response.t) :
  stable (keeps _pollingTimer) (onPollSuccess r).
Proof. keeps_ops. Qed.

Lemma afterDisconnect_pollingTimer (c : Client) : _pollingTimer (afterDisconnect c) = None.
Proof. destruct c. reflexivity. Qed.

(** The transport reports [connected]: polling is stopped (line 499). *)
Lemma connected_stops_polling (w : World) (pc : PeerConnection) :
  _peerConnection (client w) = Some pc ->
  _pollingTimer (client (snd (onconnectionstatechange "connected" w))) = None /\
  status (client (snd (onconnectionstatechange "connected" w))) = Some "connected".
Proof.
  intros H. unfold onconnectionstatechange, onPeerConnection.
  rewrite bind_getClient, H.
  destruct w as [[s i st p pn ml ic [pt|] pc0 dc pend io f] t fi ri n];
    split; reflexivity.
Qed.

(** The fields [_handleReset] writes (lines 662-683). *)
Definition afterReset (c : Client) : Client :=
  set_id None
    (set_status (Some "idle")
       (set_pollingTimer None
          (set_isProcessingSignal false
             (set_isOfferer false
                (set_pendingCandidates []
                   (set_matchList []
                      (set_peerName None
                         (set_peerId None
                            (set_peerConnection None
                               (set_dataChannel None c)))))))))).

Lemma handleReset_run (r : Response.t) (w : World) :
  _handleReset r w =
  (Ret tt,
   {| client := afterReset (client w);
      trace := (trace w ++
                match _dataChannel (client w) with Some _ => [DcClose] | None => [] end ++
                match _peerConnection (client w) with Some _ => [PcClose] | None => [] end ++
                match _pollingTimer (client w) with Some t => [ClearInterval t] | None => [] end ++
                [Emit (EvReset (Response.next_status r) (Response.message r))])%list;
      fetchInbox := fetchInbox w; rtcInbox := rtcInbox w; timers := timers w |}).
Proof.
  destruct w as [[s i st p pn ml ic [pt|] [pc|] [dc|] pend io f] t fi ri n];
    cbv - [app]; repeat rewrite <- app_assoc; reflexivity.
Qed.

(** C7, as amended.  Whatever is thrown while a tick is processed is caught
    and logged with [console.warn] inside the tick, which never throws.  A
    tick leaves the polling timer as it was unless it takes the
    auto-reconnect path (it then makes a registration call); on that path
    the timer is cleared, and it stays cleared unless the registration
    returns.  Apart from ticks, [disconnect], [_handleReset] and the
    transport's report of the [connected] state stop the timer. *)
Theorem poll_failure_and_timer (w : World) (r : Response.t) :
  (fst (_poll w) = Ret tt \/ fst (_poll w) = Stall) /\
  (forall e w', pollBody w = (Throw e, w') ->
                _poll w = (Ret tt, addTrace (ConsoleWarn e) w')) /\
  (_pollingTimer (client (snd (_poll w))) = _pollingTimer (client w) \/
   registerCalls (trace w) < registerCalls (trace (snd (_poll w)))) /\
  (forall r1 w1,
     _apiCall (pollRequest (client w)) w = (Ret r1, w1) ->
     Response.success r1 = false ->
     asksToRegister r1 = true ->
     fst (register (snd (forgetSession w1))) = Ret tt \/
     _pollingTimer (client (snd (_poll w))) = None) /\
  _pollingTimer (client (snd (disconnect w))) = None /\
  _pollingTimer (client (snd (_handleReset r w))) = None /\
  (forall pc, _peerConnection (client w) = Some pc ->
              _pollingTimer (client (snd (onconnectionstatechange "connected" w))) = None).
Proof.
  split; [apply poll_never_throws|].
  split; [intros e w'; apply poll_caught|].
  split; [apply poll_keeps_or_registers, onPollSuccess_keeps_pollingTimer|].
  split.
  { intros r1 w1 E F A. rewrite (@poll_reconnect_run w w1 r1 E F A).
    pose proof (forgetSession_pollingTimer w1) as Z.
    destruct (@register_leaves_timer _ Z) as [L|R]; [left; exact L|].
    right. unfold try_catch.
    destruct (register (snd (forgetSession w1))) as [[[]|e|] w3]; simpl in *; exact R. }
  split; [rewrite disconnect_run; apply afterDisconnect_pollingTimer|].
  split; [rewrite handleReset_run; cbn [snd client]; destruct (client w); reflexivity|].
  intros pc H. now destruct (connected_stops_polling w H).
Qed.

(** The tick is asked to register and the registration request fails. *)
Definition registrationFailsWorld : World :=
  worldOf waitingClient
    [Body (reply false (Some "register") None);
     FetchFailed (Rejection "Failed to fetch")] [].

(** The polling request itself fails. *)
Definition fetchFailsWorld : World :=
  worldOf waitingClient [FetchFailed (Rejection "Failed to fetch")] [].

Lemma poll_failure_and_timer_witness :
  _poll fetchFailsWorld =
    (Ret tt, addTrace (ConsoleWarn (Rejection "Failed to fetch")) (snd (pollBody fetchFailsWorld))) /\
  (fst (register (snd (forgetSession
                         (snd (_apiCall (pollRequest (client registrationFailsWorld))
                                 registrationFailsWorld))))) = Ret tt \/
   _pollingTimer (client (snd (_poll registrationFailsWorld))) = None) /\
  _pollingTimer (client (snd (onconnectionstatechange "connected"
                                (worldOf negotiatingClient [] [])))) = None.
Proof.
  split; [| split].
  - apply (proj1 (proj2 (poll_failure_and_timer fetchFailsWorld (reply true None None)))).
    reflexivity.
  - apply (proj1 (proj2 (proj2 (proj2
             (poll_failure_and_timer registrationFailsWorld (reply true None None)))))
             (reply false (Some "register") None));
      reflexivity.
  - apply (proj2 (proj2 (proj2 (proj2 (proj2 (proj2
             (poll_failure_and_timer (worldOf negotiatingClient [] [])
                (reply true None None)))))))
             {| localDescription := Some "offer-sdp"; connectionState := "connecting" |}).
    reflexivity.
Defined.

(** C7 as stated fails: a single tick, without [disconnect] or a reset,
    leaves the polling timer cleared (the failed response asks for
    registration and the registration fails); so does the transport's
    report of the [connected] state. *)
Lemma poll_tick_stops_polling :
  _pollingTimer (client registrationFailsWorld) = Some 1 /\
  fst (_poll registrationFailsWorld) = Ret tt /\
  _pollingTimer (client (snd (_poll registrationFailsWorld))) = None /\
  emitted (trace (snd (_poll registrationFailsWorld))) =
    [EvError (Rejection "Failed to fetch"); EvError (Rejection "Failed to fetch")] /\
  _pollingTimer (client (snd (onconnectionstatechange "connected"
                                (worldOf negotiatingClient [] [])))) = None.
Proof. repeat split; vm_compute; reflexivity. Qed.

(** ** C8: the reset handler *)

Definition asReset (e : Effect) : list (option string * option string) :=
  match e with Emit (EvReset n m) => [(n, m)] | _ => [] end.

(** The payloads of the [reset] events. *)
Definition resetEvents (t : list Effect) : list (option string * option string) :=
  flat_map asReset t.

(** No [reset] event is emitted. *)
Definition noReset : Invariant :=
  adds (fun e => asReset e = []) (fun _ => eq_refl) (fun _ _ => eq_refl).

Lemma poll_noReset : stable noReset _poll.
Proof. stable_ops view_side. Qed.

Lemma afterReset_spec (c : Client) :
  _dataChannel (afterReset c) = None /\
  _peerConnection (afterReset c) = None /\
  id (afterReset c) = None /\
  status (afterReset c) = Some "idle" /\
  _pollingTimer (afterReset c) = None /\
  peerId (afterReset c) = None /\
  peerName (afterReset c) = None /\
  matchList (afterReset c) = [] /\
  _pendingCandidates (afterReset c) = [] /\
  _isProcessingSignal (afterReset c) = false.
Proof. destruct c. repeat split; reflexivity. Qed.

(** C8, as amended.  [_handleReset(response)], when it is called, returns
    after closing and dropping the data channel and the peer connection,
    clearing [id], the peer, the match list and the pending candidates,
    setting the status to [idle], stopping the polling timer and emitting one
    [reset] event that carries the response's [next_status] and [message];
    it sends no request, so it does not register again.  No polling tick
    calls it: whatever the response, a tick emits no [reset] event. *)
Theorem hard_reset (w : World) (r : Response.t) :
  let w' := snd (_handleReset r w) in
  fst (_handleReset r w) = Ret tt /\
  (_dataChannel (client w') = None /\
   _peerConnection (client w') = None /\
   id (client w') = None /\
   status (client w') = Some "idle" /\
   _pollingTimer (client w') = None /\
   peerId (client w') = None /\
   peerName (client w') = None /\
   matchList (client w') = [] /\
   _pendingCandidates (client w') = [] /\
   _isProcessingSignal (client w') = false) /\
  trace w' =
    (trace w ++
     match _dataChannel (client w) with Some _ => [DcClose] | None => [] end ++
     match _peerConnection (client w) with Some _ => [PcClose] | None => [] end ++
     match _pollingTimer (client w) with Some t => [ClearInterval t] | None => [] end ++
     [Emit (EvReset (Response.next_status r) (Response.message r))])%list /\
  requests (trace w') = requests (trace w) /\
  resetEvents (trace (snd (_poll w))) = resetEvents (trace w).
Proof.
  cbv zeta. rewrite handleReset_run. cbn [fst snd client trace].
  split; [reflexivity|]. split; [apply afterReset_spec|]. split; [reflexivity|].
  split.
  - unfold requests. rewrite !flat_map_app.
    destruct (_dataChannel (client w)), (_peerConnection (client w)),
      (_pollingTimer (client w)); simpl; now rewrite app_nil_r.
  - destruct (poll_noReset w) as [t [E F]]. unfold extends in E.
    rewrite E. unfold resetEvents. now apply flat_map_silent.
Qed.

(** C8 as stated fails: a response that sends the client back to
    registration does not end in a hard reset.  The tick registers again by
    itself, emits [registered] and no [reset], and leaves the client with
    the new [id], the registration's status and a running timer. *)
Lemma restart_response_reregisters :
  requests (trace (snd (_poll askedToRegisterWorld))) =
    [pollRequest negotiatingClient; ReqRegister None "Alice" "" [] ""] /\
  emitted (trace (snd (_poll askedToRegisterWorld))) = [EvRegistered (Some "u7") []] /\
  id (client (snd (_poll askedToRegisterWorld))) = Some "u7" /\
  status (client (snd (_poll askedToRegisterWorld))) = Some "wait_offer" /\
  _pollingTimer (client (snd (_poll askedToRegisterWorld))) = Some 2.
Proof. repeat split; vm_compute; reflexivity. Qed.

(** ** C9: the wait for ICE candidates *)

Lemma runWait_nil (late now : nat) (p : Wait) : runWait late now [] p = fireTimeout late p.
Proof. reflexivity. Qed.

Lemma runWait_cons (late now delay : nat) (state : string) (rest : list (nat * string))
  (p : Wait) :
  runWait late now ((delay, state) :: rest) p =
  runWait late (now + delay) rest
    (onicegatheringstatechange (now + delay) state
       (if Nat.leb (timeoutDue late) (now + delay) then fireTimeout late p else p)).
Proof. reflexivity. Qed.

Lemma fireTimeout_resolved (late : nat) (p : Wait) (t : nat) :
  resolvedAt p = Some t -> resolvedAt (fireTimeout late p) = Some t.
Proof.
  destruct p as [ra [|]]; unfold fireTimeout, resolve; cbn [resolvedAt timeoutArmed];
    intros ->; reflexivity.
Qed.

Lemma gathering_resolved (p : Wait) (now t : nat) (state : string) :
  resolvedAt p = Some t -> resolvedAt (onicegatheringstatechange now state p) = Some t.
Proof.
  destruct p as [ra ta]; unfold onicegatheringstatechange, resolve;
    cbn [resolvedAt timeoutArmed]; intros ->.
  destruct (state =? "complete"); reflexivity.
Qed.

(** Once resolved, the promise keeps its resolution. *)
Lemma runWait_resolved (late : nat) (events : list (nat * string)) (now t : nat) (p : Wait) :
  resolvedAt p = Some t -> resolvedAt (runWait late now events p) = Some t.
Proof.
  revert now p. induction events as [|[delay state] rest IH]; intros now p H.
  - rewrite runWait_nil. now apply fireTimeout_resolved.
  - rewrite runWait_cons. apply IH. apply gathering_resolved.
    destruct (Nat.leb (timeoutDue late) (now + delay));
      [now apply fireTimeout_resolved | exact H].
Qed.

Lemma firstComplete_later (events : list (nat * string)) (now t : nat) :
  firstComplete now events = Some t -> now <= t.
Proof.
  revert now. induction events as [|[delay state] rest IH]; intros now H;
    cbn [firstComplete] in H.
  - discriminate.
  - destruct (state =? "complete").
    + injection H as <-. lia.
    + apply IH in H. lia.
Qed.

Lemma runWait_pending (late : nat) (events : list (nat * string)) (now : nat) :
  resolvedAt (runWait late now events waitStart) =
  Some (match firstComplete now events with
        | Some t => Nat.min t (timeoutDue late)
        | None => timeoutDue late
        end).
Proof.
  revert now. induction events as [|[delay state] rest IH]; intros now.
  - reflexivity.
  - rewrite runWait_cons. cbn [firstComplete].
    destruct (Nat.leb_spec (timeoutDue late) (now + delay)) as [L|L].
    + rewrite (@runWait_resolved late rest (now + delay) (timeoutDue late)).
      * destruct (state =? "complete").
        -- f_equal. lia.
        -- destruct (firstComplete (now + delay) rest) as [t|] eqn:F; [|reflexivity].
           apply firstComplete_later in F. f_equal. lia.
      * apply gathering_resolved. reflexivity.
    + unfold onicegatheringstatechange. destruct (state =? "complete").
      * rewrite (@runWait_resolved late rest (now + delay) (now + delay)); [|reflexivity].
        f_equal. lia.
      * apply IH.
Qed.

(** C9.  The promise of [_waitForIceCandidates] resolves, whatever the
    connection reports and when: at the first report of the gathering state
    [complete] if that comes before the timeout callback runs, and when that
    callback runs otherwise, which is 1000 ms after the promise was created
    (plus [late], the delay with which the runtime serves the timer; none
    when [late] is 0).  The caller of [_waitForIceCandidates] is therefore
    never left suspended there: it goes on, or the call throws because no
    connection exists. *)
Theorem wait_for_ice_resolves (late : nat) (events : list (nat * string)) (w : World) :
  waitResolution late events =
    Some (match firstComplete 0 events with
          | Some t => Nat.min t (1000 + late)
          | None => 1000 + late
          end) /\
  (exists t, waitResolution late events = Some t /\ t <= 1000 + late) /\
  (fst (_waitForIceCandidates w) = Ret tt \/
   fst (_waitForIceCandidates w) = Throw TypeError).
Proof.
  split; [apply runWait_pending|]. split.
  - unfold waitResolution. rewrite runWait_pending.
    eexists. split; [reflexivity|]. unfold timeoutDue.
    destruct (firstComplete 0 events); lia.
  - unfold _waitForIceCandidates, onPeerConnection, bind, effect, getClient.
    cbn [fst snd client addTrace]. destruct (_peerConnection (client w)); simpl; auto.
Qed.

(** ** C10: [send] *)




(** * The event emitter (lines 25-67)

    [_events] maps an event name to the array of its callbacks.  A callback
    is known by its identity (the [cb !== callback] of [off]); what a call
    of it does is the listener's business, and all the emitter sees of it is
    whether it throws: [raises cb data] is the exception thrown by callback
    [cb] on [data], if any.  Callbacks do not call back into the emitter,
    and event names are not names of members of [Object.prototype]. *)

Module EventEmitter.
Section Emitter.
Variable Data : Type.
Variable raises : nat -> Data -> option Error.

(** [this._events]. *)
Definition Events : Type := list (string * list nat).

(** [this._events[event]]. *)
Fixpoint lookup (event : string) (es : Events) : option (list nat) :=
  match es with
  | [] => None
  | (k, cbs) :: rest => if k =? event then Some cbs else lookup event rest
  end.

(** [this._events[event] = cbs]. *)
Fixpoint store (event : string) (cbs : list nat) (es : Events) : Events :=
  match es with
  | [] => [(event, cbs)]
  | (k, old) :: rest =>
      if k =? event then (k, cbs) :: rest else (k, old) :: store event cbs rest
  end.

(** [on] (lines 35-40). *)
Definition on (event : string) (callback : nat) (es : Events) : Events :=
  let es1 := match lookup event es with
             | Some _ => es
             | None => store event [] es
             end in
  match lookup event es1 with
  | Some cbs => store event (cbs ++ [callback]) es1
  | None => es1
  end.

(** [off] (lines 47-50). *)
Definition off (event : string) (callback : nat) (es : Events) : Events :=
  match lookup event es with
  | None => es
  | Some cbs => store event (filter (fun cb => negb (Nat.eqb cb callback)) cbs) es
  end.

(** What [emit] does, in order: a callback is called; an exception it threw
    is logged with [console.error]. *)
Inductive Output : Type :=
| Called (cb : nat) (data : Data)
| Logged (e : Error).

(** [emit] (lines 57-66). *)
Definition emit (event : string) (data : Data) (es : Events) : list Output :=
  match lookup event es with
  | None => []
  | Some cbs =>
      flat_map (fun callback =>
                  Called callback data ::
                  match raises callback data with
                  | Some e => [Logged e]
                  | None => []
                  end) cbs
  end.

(** The callbacks registered for [event], in the order of their
    registration. *)
Definition listeners (event : string) (es : Events) : list nat :=
  match lookup event es with
  | Some cbs => cbs
  | None => []
  end.

Definition called (out : list Output) : list nat :=
  flat_map (fun o => match o with Called cb _ => [cb] | Logged _ => [] end) out.

Definition logged (out : list Output) : list Error :=
  flat_map (fun o => match o with Called _ _ => [] | Logged e => [e] end) out.

(** The exceptions the callbacks [cbs] throw on [data], in order. *)
Definition thrownBy (data : Data) (cbs : list nat) : list Error :=
  flat_map (fun cb => match raises cb data with Some e => [e] | None => [] end) cbs.

Lemma lookup_store_same (event : string) (cbs : list nat) (es : Events) :
  lookup event (store event cbs es) = Some cbs.
Proof.
  induction es as [|[k old] rest IH]; simpl.
  - now rewrite String.eqb_refl.
  - destruct (k =? event) eqn:E; simpl; rewrite E; [reflexivity | exact IH].
Qed.

Lemma lookup_store_other (event other : string) (cbs : list nat) (es : Events) :
  other <> event -> lookup other (store event cbs es) = lookup other es.
Proof.
  intros N. induction es as [|[k old] rest IH]; simpl.
  - apply String.eqb_neq in N. rewrite String.eqb_sym in N. now rewrite N.
  - destruct (k =? event) eqn:E; simpl.
    + apply String.eqb_eq in E. subst k.
      apply String.eqb_neq in N. rewrite String.eqb_sym in N. now rewrite N.
    + destruct (k =? other); [reflexivity | exact IH].
Qed.

Lemma listeners_on_same (event : string) (cb : nat) (es : Events) :
  listeners event (on event cb es) = (listeners event es ++ [cb])%list.
Proof.
  unfold listeners, on. destruct (lookup event es) as [cbs|] eqn:L.
  - rewrite L, lookup_store_same. reflexivity.
  - rewrite lookup_store_same, lookup_store_same. reflexivity.
Qed.

Lemma listeners_on_other (event other : string) (cb : nat) (es : Events) :
  other <> event -> listeners other (on event cb es) = listeners other es.
Proof.
  intros N. unfold listeners, on. destruct (lookup event es) as [cbs|] eqn:L.
  - rewrite L, lookup_store_other by exact N. reflexivity.
  - rewrite lookup_store_same, !lookup_store_other by exact N. reflexivity.
Qed.

Lemma listeners_off_same (event : string) (cb : nat) (es : Events) :
  listeners event (off event cb es) =
  filter (fun c => negb (Nat.eqb c cb)) (listeners event es).
Proof.
  unfold listeners, off. destruct (lookup event es) as [cbs|] eqn:L.
  - now rewrite lookup_store_same.
  - now rewrite L.
Qed.

Lemma listeners_off_other (event other : string) (cb : nat) (es : Events) :
  other <> event -> listeners other (off event cb es) = listeners other es.
Proof.
  intros N. unfold listeners, off. destruct (lookup event es) as [cbs|] eqn:L.
  - now rewrite lookup_store_other by exact N.
  - reflexivity.
Qed.

Lemma called_emit (event : string) (data : Data) (es : Events) :
  called (emit event data es) = listeners event es.
Proof.
  unfold emit, listeners, called. destruct (lookup event es) as [cbs|]; [|reflexivity].
  induction cbs as [|cb cbs IH]; [reflexivity|]. simpl.
  destruct (raises cb data); simpl; now rewrite IH.
Qed.

Lemma logged_emit (event : string) (data : Data) (es : Events) :
  logged (emit event data es) = thrownBy data (listeners event es).
Proof.
  unfold emit, listeners, logged, thrownBy.
  destruct (lookup event es) as [cbs|]; [|reflexivity].
  induction cbs as [|cb cbs IH]; [reflexivity|]. simpl.
  destruct (raises cb data); simpl; now rewrite IH.
Qed.

(** X1.  Every callback registered for an event is called by [emit], once per
    registration and in the order of registration, whether or not the
    callbacks before it threw; each exception is logged and none leaves
    [emit].  A callback added with [on] is called last; after [off] the
    callback is not called any more and the others still are, in their
    order. *)
Theorem emit_reaches_every_listener (event : string) (cb : nat) (data : Data) (es : Events) :
  called (emit event data es) = listeners event es /\
  logged (emit event data es) = thrownBy data (listeners event es) /\
  called (emit event data (on event cb es)) = (called (emit event data es) ++ [cb])%list /\
  called (emit event data (off event cb es)) =
    filter (fun c => negb (Nat.eqb c cb)) (called (emit event data es)).
Proof.
  split; [apply called_emit|]. split; [apply logged_emit|]. split.
  - now rewrite !called_emit, listeners_on_same.
  - now rewrite !called_emit, listeners_off_same.
Qed.

Lemma filter_absent (cb : nat) (l : list nat) :
  ~ In cb l -> filter (fun c => negb (Nat.eqb c cb)) l = l.
Proof.
  induction l as [|x l IH]; intros N; [reflexivity|]. simpl.
  destruct (Nat.eqb_spec x cb) as [->|D]; simpl.
  - exfalso. apply N. now left.
  - rewrite IH; [reflexivity|]. intros H. apply N. now right.
Qed.

(** X2.  [off] removes every registration of the callback, however often it was
    registered: a callback registered twice is called twice by [emit], and
    not at all after one [off].  For a callback that was not registered
    before, [on] followed by [off] leaves every event with the listeners it
    had. *)
Theorem off_undoes_on (event other : string) (cb : nat) (es : Events) :
  ~ In cb (listeners event es) ->
  listeners event (on event cb (on event cb es)) = (listeners event es ++ [cb; cb])%list /\
  listeners event (off event cb (on event cb (on event cb es))) = listeners event es /\
  listeners other (off event cb (on event cb es)) = listeners other es.
Proof.
  intros N. split; [| split].
  - rewrite !listeners_on_same, <- app_assoc. reflexivity.
  - rewrite listeners_off_same, !listeners_on_same, !filter_app. simpl.
    rewrite Nat.eqb_refl. simpl. rewrite !app_nil_r. now apply filter_absent.
  - destruct (string_dec other event) as [->|D].
    + rewrite listeners_off_same, listeners_on_same, filter_app. simpl.
      rewrite Nat.eqb_refl. simpl. rewrite app_nil_r. now apply filter_absent.
    + now rewrite listeners_off_other, listeners_on_other.
Qed.

(** X3.  Registrations for one event never change what [emit] does for another
    event. *)
Theorem events_are_independent (event other : string) (cb : nat) (data : Data) (es : Events) :
  other <> event ->
  emit other data (on event cb es) = emit other data es /\
  emit other data (off event cb es) = emit other data es.
Proof.
  intros N. unfold emit, on, off. destruct (lookup event es) as [cbs|] eqn:L.
  - rewrite L, !lookup_store_other by exact N. split; reflexivity.
  - rewrite lookup_store_same, !lookup_store_other by exact N. split; reflexivity.
Qed.

End Emitter.

(** A listener on [message] (callback 1) and two on [error]; callback 2
    throws on every payload. *)
Definition sampleEvents : Events :=
  on "error" 3 (on "error" 2 (on "message" 1 [])).

Definition sampleRaises (cb : nat) (data : string) : option Error :=
  if Nat.eqb cb 2 then Some (ErrorMsg (Some data)) else None.

Lemma off_undoes_on_witness :
  listeners "error" (on "error" 7 (on "error" 7 sampleEvents)) = [2; 3; 7; 7] /\
  listeners "error" (off "error" 7 (on "error" 7 (on "error" 7 sampleEvents))) = [2; 3] /\
  listeners "message" (off "error" 7 (on "error" 7 sampleEvents)) = [1].
Proof.
  apply (off_undoes_on "error" "message" 7 sampleEvents).
  vm_compute. intros [H | [H | []]]; discriminate H.
Defined.

Lemma events_are_independent_witness :
  emit sampleRaises "message" "hello" (on "error" 7 sampleEvents) =
    [Called 1 "hello"] /\
  emit sampleRaises "message" "hello" (off "error" 2 sampleEvents) =
    [Called 1 "hello"].
Proof.
  apply (events_are_independent sampleRaises (event := "error") (other := "message")
           7 "hello" sampleEvents).
  discriminate.
Defined.

End EventEmitter.

(** * Registration (lines 123-163) *)

(** The world once a request has been sent and has settled. *)
Definition afterRequest (req : Request) (rest : list FetchResult) (w : World) : World :=
  {| client := client w;
     trace := (trace w ++ [Fetch req; Await (client w)])%list;
     fetchInbox := rest; rtcInbox := rtcInbox w; timers := timers w |}.

Lemma apiCall_answered (req : Request) (w : World) (r : Response.t) (rest : list FetchResult) :
  fetchInbox w = Body r :: rest ->
  _apiCall req w = (Ret r, afterRequest req rest w).
Proof.
  intros H. rewrite apiCall_run. unfold settleFetch, afterRequest. simpl.
  rewrite H. simpl. now rewrite <- app_assoc.
Qed.

Lemma apiCall_rejected (req : Request) (w : World) (e : Error) (rest : list FetchResult) :
  fetchInbox w = FetchFailed e :: rest ->
  _apiCall req w = (Throw e, afterRequest req rest w).
Proof.
  intros H. rewrite apiCall_run. unfold settleFetch, afterRequest. simpl.
  rewrite H. simpl. now rewrite <- app_assoc.
Qed.

Lemma apiCall_pending (req : Request) (w : World) :
  fetchInbox w = [] ->
  _apiCall req w = (Stall, afterRequest req [] w).
Proof.
  intros H. rewrite apiCall_run. unfold settleFetch, afterRequest. simpl.
  rewrite H. unfold addTrace. simpl. now rewrite H, <- app_assoc.
Qed.

(** The error that [register] and [connect] make of a settled request:
    the rejection of [fetch], or [new Error(response.message)] when the
    response has [success] false (lines 134-136 and 213-215). *)
Definition failure (settled : FetchResult) : option Error :=
  match settled with
  | Body r => if Response.success r then None else Some (ErrorMsg (Response.message r))
  | FetchFailed e => Some e
  end.

(** The events of a successful registration (lines 146-154). *)
Definition registrationEvents (c : Client) : list Effect :=
  Emit (EvRegistered (id c) (matchList c)) ::
  match matchList c with
  | [] => []
  | _ :: _ => [Emit (EvMatchFound (matchList c))]
  end.

(** What [_startPolling] adds to the trace. *)
Definition arming (w : World) : list Effect :=
  match _pollingTimer (client w) with
  | Some _ => []
  | None => [SetInterval (S (timers w)) (pollingInterval (settings (client w)))]
  end.

Lemma register_answered (w : World) (r : Response.t) (rest : list FetchResult) :
  fetchInbox w = Body r :: rest ->
  register w =
  try_catch (onRegistered r) (fun error => emit (EvError error) ;; throw error)
    (afterRequest (registerRequest (client w)) rest w).
Proof.
  intros H. unfold register, try_catch. rewrite bind_getClient.
  erewrite bind_ret_run by (apply apiCall_answered; exact H). reflexivity.
Qed.

(** X4.  A registration the endpoint accepts: [register] returns; the [id] is the
    one of the response if it carries one and the old one otherwise, the
    status is the response's [next_status] and the match list its
    [match_list], empty when absent; [registered] is emitted, then
    [matchFound] if the list is not empty; and polling is started with the
    configured period unless a timer is already running.  Nothing else
    happens. *)
Theorem register_accepted (w : World) (r : Response.t) (rest : list FetchResult) :
  fetchInbox w = Body r :: rest ->
  Response.success r = true ->
  let w2 := snd (register w) in
  fst (register w) = Ret tt /\
  id (client w2) = (if truthy (Response.id r) then Response.id r else id (client w)) /\
  status (client w2) = Response.next_status r /\
  matchList (client w2) =
    match Response.match_list r with Some l => l | None => [] end /\
  _pollingTimer (client w2) =
    match _pollingTimer (client w) with Some t => Some t | None => Some (S (timers w)) end /\
  trace w2 =
    (trace w ++ [Fetch (registerRequest (client w)); Await (client w)] ++
     registrationEvents (client w2) ++ arming w)%list.
Proof.
  intros H S. cbv zeta. rewrite (register_answered _ H).
  unfold try_catch, onRegistered. rewrite S. cbn [negb].
  destruct w as [[s i st p pn ml ic [pt|] pc dc pend io f] t fi ri n];
    simpl in H; subst fi;
    destruct r as [su me ns [[|a ri']|] [[|q l]|] ty sd ca pi pn'];
    cbv - [app]; repeat rewrite <- app_assoc; repeat split; reflexivity.
Qed.

(** X5.  A registration that fails, because the request is rejected or because
    the response has [success] false: [register] throws the error, after
    emitting one [error] event that carries it; the client is as it was, and
    polling is not started. *)
Theorem register_refused (w : World) (settled : FetchResult) (rest : list FetchResult)
  (error : Error) :
  fetchInbox w = settled :: rest ->
  failure settled = Some error ->
  register w =
  (Throw error,
   {| client := client w;
      trace := (trace w ++ [Fetch (registerRequest (client w)); Await (client w);
                            Emit (EvError error)])%list;
      fetchInbox := rest; rtcInbox := rtcInbox w; timers := timers w |}).
Proof.
  intros H F. destruct settled as [r|e]; simpl in F.
  - destruct (Response.success r) eqn:S; [discriminate|]. injection F as <-.
    rewrite (register_answered _ H). unfold try_catch, onRegistered. rewrite S.
    cbn. unfold addTrace, afterRequest. cbn. rewrite <- ?app_assoc. reflexivity.
  - injection F as <-. unfold register, try_catch. rewrite bind_getClient.
    erewrite bind_throw_run by (apply apiCall_rejected; exact H).
    cbn. unfold addTrace, afterRequest. cbn. rewrite <- ?app_assoc. reflexivity.
Qed.

(** * Properties kept from step to step

    A property of the world that every primitive step keeps is kept by every
    operation.  [_startPolling] and [_stopPolling] are taken as steps of
    their own: between arming the interval and storing its identifier the
    timer and the client disagree. *)

Record Kept : Type := {
  inv : World -> Prop;
  updateOk : (Client -> Client) -> Prop;
  effectOk : Effect -> Prop;
  inv_update : forall f w, updateOk f -> inv w -> inv (withClient (f (client w)) w);
  inv_effect : forall e w, effectOk e -> inv w -> inv (addTrace e w);
  inv_suspend : forall w, inv w -> inv (addTrace (Await (client w)) w);
  inv_settleFetch : forall w, inv w -> inv (snd (settleFetch w));
  inv_settleRtc : forall w, inv w -> inv (snd (settleRtc w));
  inv_startPolling : forall w, inv w -> inv (snd (_startPolling w));
  inv_stopPolling : forall w, inv w -> inv (snd (_stopPolling w)) }.

Definition kept (K : Kept) {A} (m : M A) : Prop :=
  forall w, inv K w -> inv K (snd (m w)).

Section KeptBy.
Variable K : Kept.

Lemma kept_ret {A} (a : A) : kept K (ret a).
Proof. intros w H. exact H. Qed.

Lemma kept_throw {A} (e : Error) : kept K (@throw A e).
Proof. intros w H. exact H. Qed.

Lemma kept_getClient : kept K getClient.
Proof. intros w H. exact H. Qed.

Lemma kept_update (f : Client -> Client) : updateOk K f -> kept K (update f).
Proof. intros Hf w H. now apply inv_update. Qed.

Lemma kept_effect (e : Effect) : effectOk K e -> kept K (effect e).
Proof. intros He w H. now apply inv_effect. Qed.

Lemma kept_suspend : kept K suspend.
Proof. intros w H. now apply inv_suspend. Qed.

Lemma kept_settleFetch : kept K settleFetch.
Proof. intros w H. now apply inv_settleFetch. Qed.

Lemma kept_settleRtc : kept K settleRtc.
Proof. intros w H. now apply inv_settleRtc. Qed.

Lemma kept_startPolling : kept K _startPolling.
Proof. intros w H. now apply inv_startPolling. Qed.

Lemma kept_stopPolling : kept K _stopPolling.
Proof. intros w H. now apply inv_stopPolling. Qed.

Lemma kept_bind {A B} (m : M A) (k : A -> M B) :
  kept K m -> (forall a, kept K (k a)) -> kept K (bind m k).
Proof.
  intros Hm Hk w H. unfold bind.
  specialize (Hm w H). destruct (m w) as [[a|e|] w1]; simpl in *; auto.
  now apply Hk.
Qed.

Lemma kept_try_catch {A} (m : M A) (h : Error -> M A) :
  kept K m -> (forall e, kept K (h e)) -> kept K (try_catch m h).
Proof.
  intros Hm Hh w H. unfold try_catch.
  specialize (Hm w H). destruct (m w) as [[a|e|] w1]; simpl in *; auto.
  now apply Hh.
Qed.

Lemma kept_try_finally {A} (m : M A) (f : M unit) :
  kept K m -> kept K f -> kept K (try_finally m f).
Proof.
  intros Hm Hf w H. unfold try_finally.
  specialize (Hm w H). destruct (m w) as [[a|e|] w1]; simpl in *; auto;
    specialize (Hf w1 Hm); destruct (f w1) as [[[]|e'|] w2]; simpl in *; assumption.
Qed.

Lemma kept_forEach {A} (l : list A) (f : A -> M unit) :
  (forall a, kept K (f a)) -> kept K (forEach l f).
Proof.
  intros Hf. induction l as [|x l IH]; simpl.
  - apply kept_ret.
  - apply kept_bind; auto.
Qed.
End KeptBy.

Ltac kept_step side :=
  cbv beta;
  first
    [ assumption
    | apply kept_startPolling
    | apply kept_stopPolling
    | apply kept_ret
    | apply kept_throw
    | apply kept_getClient
    | apply kept_suspend
    | apply kept_settleFetch
    | apply kept_settleRtc
    | apply kept_update; side
    | apply kept_effect; side
    | apply kept_bind; [| intros ?]
    | apply kept_try_catch; [| intros ?]
    | apply kept_try_finally
    | apply kept_forEach; intros ?
    | match goal with
      | |- kept _ (if ?b then _ else _) => destruct b
      | |- kept _ (match ?x with _ => _ end) => destruct x
      | |- kept _ (let _ := _ in _) => cbv zeta
      end
    | progress autounfold with client_ops ].

Ltac kept_ops side := repeat (kept_step side).

Ltac kept_runs side :=
  lazymatch goal with
  | |- forall _, _ => intros ?; kept_ops side
  | _ => kept_ops side
  end.

(** ** What happens to a client, step by step *)

(** The calls of the user, the ticks of the polling timer, the callbacks of
    the transport, and the outcomes the environment holds ready for the
    calls to come. *)
Inductive Step : Type :=
| CallRegister
| CallConnect (peerId : string)
| CallDisconnect
| CallSend (data : Json)
| Tick
| IceCandidate (candidate : option Candidate)
| ConnectionState (state : string)
| ChannelOpened (channel : DataChannel)
| Settled (fetches : list FetchResult) (rtcs : list RtcResult).

Definition exec (s : Step) (w : World) : World :=
  match s with
  | CallRegister => snd (register w)
  | CallConnect peerId => snd (connect peerId w)
  | CallDisconnect => snd (disconnect w)
  | CallSend data => snd (send data w)
  | Tick => snd (_poll w)
  | IceCandidate candidate => snd (onicecandidate candidate w)
  | ConnectionState state => snd (onconnectionstatechange state w)
  | ChannelOpened channel => snd (ondatachannel channel w)
  | Settled fetches rtcs =>
      {| client := client w; trace := trace w; fetchInbox := fetches;
         rtcInbox := rtcs; timers := timers w |}
  end.

Fixpoint run (steps : list Step) (w : World) : World :=
  match steps with
  | [] => w
  | s :: rest => run rest (exec s w)
  end.

(** [new Client(options)]; [options] itself may be missing (line 88). *)
Definition construct (options : option Options) : Error + Client :=
  match options with
  | None => inl (ErrorMsg (Some "apiUrl は必須です"))
  | Some o => newClient o
  end.

(** The world of a client that has just been constructed. *)
Definition startWorld (c : Client) : World :=
  {| client := c; trace := []; fetchInbox := []; rtcInbox := []; timers := 0 |}.

Section KeptByRuns.
Variable K : Kept.
Hypothesis settledOk : forall w fetches rtcs,
  inv K w ->
  inv K {| client := client w; trace := trace w; fetchInbox := fetches;
           rtcInbox := rtcs; timers := timers w |}.
Hypothesis registerOk : kept K register.
Hypothesis connectOk : forall p, kept K (connect p).
Hypothesis disconnectOk : kept K disconnect.
Hypothesis sendOk : forall d, kept K (send d).
Hypothesis pollOk : kept K _poll.
Hypothesis candidateOk : forall c, kept K (onicecandidate c).
Hypothesis stateOk : forall s, kept K (onconnectionstatechange s).
Hypothesis channelOk : forall ch, kept K (ondatachannel ch).

Lemma exec_kept (s : Step) (w : World) : inv K w -> inv K (exec s w).
Proof.
  intros H. destruct s; simpl.
  - now apply registerOk.
  - now apply connectOk.
  - now apply disconnectOk.
  - now apply sendOk.
  - now apply pollOk.
  - now apply candidateOk.
  - now apply stateOk.
  - now apply channelOk.
  - now apply settledOk.
Qed.

Lemma run_kept (steps : list Step) (w : World) : inv K w -> inv K (run steps w).
Proof.
  revert w. induction steps as [|s steps IH]; intros w H; simpl.
  - exact H.
  - apply IH. now apply exec_kept.
Qed.
End KeptByRuns.

(** ** The interval timers *)

(** The intervals armed and not cleared, oldest first. *)
Definition timerStep (live : list nat) (e : Effect) : list nat :=
  match e with
  | SetInterval t _ => (live ++ [t])%list
  | ClearInterval t => filter (fun x => negb (Nat.eqb x t)) live
  | _ => live
  end.

Definition liveTimers (t : list Effect) : list nat := fold_left timerStep t [].

(** The timer the client remembers in [_pollingTimer]. *)
Definition remembered (c : Client) : list nat :=
  match _pollingTimer c with
  | Some t => [t]
  | None => []
  end.

Definition noTimerEffect (e : Effect) : Prop :=
  match e with
  | SetInterval _ _ | ClearInterval _ => False
  | _ => True
  end.

Lemma liveTimers_snoc (t : list Effect) (e : Effect) :
  liveTimers (t ++ [e]) = timerStep (liveTimers t) e.
Proof. unfold liveTimers. now rewrite fold_left_app. Qed.

Lemma liveTimers_quiet (t : list Effect) (e : Effect) :
  noTimerEffect e -> liveTimers (t ++ [e]) = liveTimers t.
Proof. intros H. rewrite liveTimers_snoc. destruct e; try reflexivity; destruct H. Qed.

(** The live intervals are the one the client remembers. *)
Definition timerKept : Kept.
Proof.
  refine {| inv := fun w => liveTimers (trace w) = remembered (client w);
            updateOk := fun f => forall c, _pollingTimer (f c) = _pollingTimer c;
            effectOk := noTimerEffect |}.
  - intros f w Hf H. simpl. unfold remembered. now rewrite Hf.
  - intros e w He H. simpl. now rewrite liveTimers_quiet.
  - intros w H. simpl. now rewrite liveTimers_quiet.
  - intros w H. unfold settleFetch. destruct (fetchInbox w) as [|[]]; exact H.
  - intros w H. unfold settleRtc. destruct (rtcInbox w) as [|[]]; exact H.
  - intros w H. unfold _startPolling. rewrite bind_getClient.
    destruct (_pollingTimer (client w)) eqn:E; [exact H|].
    unfold remembered in H. rewrite E in H.
    unfold bind, setInterval, update. simpl. rewrite liveTimers_snoc, H. reflexivity.
  - intros w H. unfold _stopPolling. rewrite bind_getClient.
    destruct (_pollingTimer (client w)) eqn:E; [|exact H].
    unfold remembered in H. rewrite E in H.
    unfold bind, effect, update. simpl. rewrite liveTimers_snoc, H. simpl.
    now rewrite Nat.eqb_refl.
Defined.

Ltac timer_side := unfold timerKept; simpl; first [exact I | intros; reflexivity].

Lemma timerKept_inv (w : World) :
  inv timerKept w -> liveTimers (trace w) = remembered (client w).
Proof. exact (fun H => H). Qed.

Lemma run_app (steps more : list Step) (w : World) :
  run (steps ++ more) w = run more (run steps w).
Proof.
  revert w. induction steps as [|s steps IH]; intros w; simpl; [reflexivity | apply IH].
Qed.

Lemma run_timerKept (steps : list Step) (w : World) :
  inv timerKept w -> inv timerKept (run steps w).
Proof.
  apply run_kept; [intros ? ? ? H0; exact H0 | kept_runs timer_side ..].
Qed.

(** X6.  The polling timer never leaks.  After any sequence of calls, ticks and
    callbacks, whatever the endpoint and the transport answer and whichever
    calls throw or stay suspended, the intervals armed with [setInterval]
    and not cleared are exactly the one in [_pollingTimer]: at most one
    interval is live, and none when [_pollingTimer] is [null].  After
    [disconnect] no interval is live. *)
Theorem polling_timer_never_leaks (steps : list Step) (w : World) :
  liveTimers (trace w) = remembered (client w) ->
  liveTimers (trace (run steps w)) = remembered (client (run steps w)) /\
  length (liveTimers (trace (run steps w))) <= 1 /\
  liveTimers (trace (run (steps ++ [CallDisconnect]) w)) = [].
Proof.
  intros H.
  pose proof (timerKept_inv (@run_timerKept steps w H)) as R.
  pose proof (timerKept_inv (@run_timerKept (steps ++ [CallDisconnect]) w H)) as D.
  split; [exact R | split].
  - rewrite R. unfold remembered. destruct (_pollingTimer (client (run steps w))); simpl; lia.
  - rewrite D, run_app. simpl. rewrite disconnect_run. cbn [snd client].
    unfold remembered. now rewrite afterDisconnect_pollingTimer.
Qed.

(** A session: registration, a tick that brings a match, a connection to
    the match that comes up, and a disconnection. *)
Definition aliceOptions : Options :=
  {| opt_apiUrl := Some "https://script.example/exec"; opt_name := Some "Alice";
     opt_id := None; opt_globalIp := None; opt_friendList := None;
     opt_passphrase := None; opt_pollingInterval := None |}.

Definition alice : Client :=
  {| settings := sampleSettings; id := None; status := Some "idle";
     peerId := None; peerName := None; matchList := []; isConnected := false;
     _pollingTimer := None; _peerConnection := None; _dataChannel := None;
     _pendingCandidates := []; _isOfferer := false; _isProcessingSignal := false |}.

Definition waitingSession : list Step :=
  [ Settled [Body (registeredAs "u1" "wait_offer")] []; CallRegister;
    Settled [Body (matchReply "wait_offer" None [bob])] []; Tick ].

Definition sampleSession : list Step :=
  (waitingSession ++
   [ Settled [Body (reply true (Some "wait_answer") None)] [RtcOk "offer-sdp"; RtcOk ""];
     CallConnect "u2";
     ConnectionState "connected";
     CallDisconnect ])%list.

Lemma polling_timer_never_leaks_witness :
  liveTimers (trace (run waitingSession (startWorld alice))) =
    remembered (client (run waitingSession (startWorld alice))) /\
  length (liveTimers (trace (run waitingSession (startWorld alice)))) <= 1 /\
  liveTimers (trace (run (waitingSession ++ [CallDisconnect]) (startWorld alice))) = [].
Proof. apply (polling_timer_never_leaks waitingSession (startWorld alice)). reflexivity. Defined.

(** ** The constructor's options *)

(** An effect that carries options of the constructor carries those of
    [s]: a registration request its name, global IP, friend list and
    passphrase, an interval its period. *)
Definition configuredBy (s : Settings) (e : Effect) : Prop :=
  match e with
  | Fetch (ReqRegister _ name0 global_ip friend_list passphrase0) =>
      name0 = name s /\ global_ip = globalIp s /\
      friend_list = friendList s /\ passphrase0 = passphrase s
  | SetInterval _ ms => ms = pollingInterval s
  | _ => True
  end.

Definition carriesNoOption (e : Effect) : Prop :=
  match e with
  | Fetch (ReqRegister _ _ _ _ _) | SetInterval _ _ => False
  | _ => True
  end.

Lemma carriesNoOption_configuredBy (s : Settings) (e : Effect) :
  carriesNoOption e -> configuredBy s e.
Proof. destruct e as [[]| | | | | | | | | | | | | | | | |]; simpl; tauto. Qed.

(** The settings are [s], and so is what was sent of them. *)
Definition settingsKept (s : Settings) : Kept.
Proof.
  refine {| inv := fun w => settings (client w) = s /\ Forall (configuredBy s) (trace w);
            updateOk := fun f => forall c, settings (f c) = settings c;
            effectOk := carriesNoOption |}.
  - intros f w Hf [H1 H2]. simpl. now rewrite Hf.
  - intros e w He [H1 H2]. simpl. split; [exact H1|].
    apply Forall_app. split; [exact H2|].
    repeat constructor. now apply carriesNoOption_configuredBy.
  - intros w [H1 H2]. simpl. split; [exact H1|].
    apply Forall_app. split; [exact H2 | repeat constructor].
  - intros w H. unfold settleFetch. destruct (fetchInbox w) as [|[]]; exact H.
  - intros w H. unfold settleRtc. destruct (rtcInbox w) as [|[]]; exact H.
  - intros w [H1 H2]. unfold _startPolling. rewrite bind_getClient.
    destruct (_pollingTimer (client w)); [split; assumption|].
    unfold bind, setInterval, update. simpl. split; [exact H1|].
    apply Forall_app. split; [exact H2|]. repeat constructor. simpl. now rewrite H1.
  - intros w [H1 H2]. unfold _stopPolling. rewrite bind_getClient.
    destruct (_pollingTimer (client w)); [|split; assumption].
    unfold bind, effect, update. simpl. split; [exact H1|].
    apply Forall_app. split; [exact H2 | repeat constructor].
Defined.

Ltac settings_side := unfold settingsKept; simpl; first [exact I | intros; reflexivity].

Lemma register_settingsKept (s : Settings) : kept (settingsKept s) register.
Proof.
  intros w [H1 H2]. rewrite register_first.
  match goal with |- inv _ (snd (?m ?w1)) =>
    assert (S : kept (settingsKept s) m) by kept_ops settings_side;
    apply (S w1)
  end.
  simpl. split; [exact H1|]. apply Forall_app. split; [exact H2|].
  repeat constructor; simpl; now rewrite H1.
Qed.

Lemma run_settingsKept (s : Settings) (steps : list Step) (w : World) :
  inv (settingsKept s) w -> inv (settingsKept s) (run steps w).
Proof.
  pose proof (@register_settingsKept s) as R.
  apply run_kept;
    [intros ? ? ? H0; exact H0 | kept_runs settings_side ..].
Qed.

(** X7.  The options given to the constructor are never reassigned.  A client is
    constructed only when [apiUrl] and [name] are non-empty strings, and
    from then on, after any sequence of calls, ticks and callbacks, its
    settings are those of the options: every registration request, the
    automatic re-registrations of a tick included, carries the constructor's
    name, global IP, friend list and passphrase, and every interval is armed
    with the constructor's period, which is 2000 when the option is absent
    or 0. *)
Theorem options_are_never_reassigned (options : option Options) (c : Client)
  (steps : list Step) :
  construct options = inr c ->
  let w := run steps (startWorld c) in
  (exists o, options = Some o /\
             truthy (opt_apiUrl o) = true /\
             opt_name o = Some (name (settings c)) /\
             name (settings c) <> "" /\
             pollingInterval (settings c) =
               match opt_pollingInterval o with Some (S n) => S n | _ => 2000 end) /\
  settings (client w) = settings c /\
  Forall (configuredBy (settings c)) (trace w).
Proof.
  intros H. cbv zeta. split.
  - destruct options as [o|]; [|discriminate]. exists o. simpl in H.
    unfold newClient in H.
    destruct (opt_apiUrl o) as [[|a u]|]; try discriminate.
    destruct (opt_name o) as [[|b n]|]; try discriminate.
    simpl in H. injection H as <-. simpl. repeat split. discriminate.
  - apply (@run_settingsKept (settings c) steps (startWorld c)).
    simpl. split; [reflexivity | constructor].
Qed.

Lemma options_are_never_reassigned_witness :
  (exists o, Some aliceOptions = Some o /\
             truthy (opt_apiUrl o) = true /\
             opt_name o = Some (name (settings alice)) /\
             name (settings alice) <> "" /\
             pollingInterval (settings alice) =
               match opt_pollingInterval o with Some (S n) => S n | _ => 2000 end) /\
  settings (client (run sampleSession (startWorld alice))) = settings alice /\
  Forall (configuredBy (settings alice)) (trace (run sampleSession (startWorld alice))).
Proof.
  apply (@options_are_never_reassigned (Some aliceOptions) alice sampleSession).
  reflexivity.
Defined.

(** Alice registers for the first time: the endpoint assigns her an id and
    a match, or turns her away. *)
Definition firstRegistration : World :=
  worldOf alice
    [Body {| Response.success := true; Response.message := None;
             Response.next_status := Some "wait_offer"; Response.id := Some "u1";
             Response.match_list := Some [bob]; Response.type := None;
             Response.sdp := None; Response.candidates := None;
             Response.peer_id := None; Response.peer_name := None |}] [].

Definition turnedAway : World :=
  worldOf alice [Body (reply false (Some "register") (Some "passphrase mismatch"))] [].

Lemma register_accepted_witness :
  fst (register firstRegistration) = Ret tt /\
  id (client (snd (register firstRegistration))) = Some "u1" /\
  status (client (snd (register firstRegistration))) = Some "wait_offer" /\
  matchList (client (snd (register firstRegistration))) = [bob] /\
  _pollingTimer (client (snd (register firstRegistration))) = Some 2 /\
  trace (snd (register firstRegistration)) =
    [Fetch (ReqRegister None "Alice" "" [] ""); Await alice;
     Emit (EvRegistered (Some "u1") [bob]); Emit (EvMatchFound [bob]);
     SetInterval 2 2000].
Proof.
  vm_compute. exact (@register_accepted firstRegistration _ [] eq_refl eq_refl).
Defined.

Lemma register_refused_witness :
  register turnedAway =
  (Throw (ErrorMsg (Some "passphrase mismatch")),
   {| client := alice;
      trace := [Fetch (ReqRegister None "Alice" "" [] ""); Await alice;
                Emit (EvError (ErrorMsg (Some "passphrase mismatch")))];
      fetchInbox := []; rtcInbox := []; timers := 1 |}).
Proof.
  exact (@register_refused turnedAway _ [] _ eq_refl eq_refl).
Defined.

(** * Calls on the peer connection *)

(** The world once the call [e] on the peer connection has settled. *)
Definition afterCall (e : Effect) (rest : list RtcResult) (w : World) : World :=
  {| client := client w;
     trace := (trace w ++ [e; Await (client w)])%list;
     fetchInbox := fetchInbox w; rtcInbox := rest; timers := timers w |}.

Lemma pcCall_fulfilled (e : Effect) (w : World) (pc : PeerConnection) (d : Sdp)
  (rest : list RtcResult) :
  _peerConnection (client w) = Some pc ->
  rtcInbox w = RtcOk d :: rest ->
  pcCall e w = (Ret d, afterCall e rest w).
Proof.
  intros P H. unfold pcCall, onPeerConnection. rewrite bind_getClient, P.
  unfold bind, effect, suspend, settleRtc, afterCall. simpl. rewrite H. simpl.
  now rewrite <- app_assoc.
Qed.

Lemma pcCall_rejected (e : Effect) (w : World) (pc : PeerConnection) (x : Error)
  (rest : list RtcResult) :
  _peerConnection (client w) = Some pc ->
  rtcInbox w = RtcFailed x :: rest ->
  pcCall e w = (Throw x, afterCall e rest w).
Proof.
  intros P H. unfold pcCall, onPeerConnection. rewrite bind_getClient, P.
  unfold bind, effect, suspend, settleRtc, afterCall. simpl. rewrite H. simpl.
  now rewrite <- app_assoc.
Qed.

Lemma pcCall_null (e : Effect) (w : World) :
  _peerConnection (client w) = None -> pcCall e w = (Throw TypeError, w).
Proof.
  intros P. unfold pcCall, onPeerConnection. now rewrite bind_getClient, P.
Qed.

(** ** The candidates of a response *)

(** The calls that add the candidates [cs], each awaited. *)
Definition added (c : Client) (cs : list Candidate) : list Effect :=
  flat_map (fun candidate => [PcAddIceCandidate candidate; Await c]) cs.

Definition afterCandidates (cs : list Candidate) (rest : list RtcResult) (w : World) : World :=
  {| client := client w;
     trace := (trace w ++ added (client w) cs)%list;
     fetchInbox := fetchInbox w; rtcInbox := rest; timers := timers w |}.

Lemma afterCandidates_cons (x : Candidate) (cs : list Candidate) (rest rest' : list RtcResult)
  (w : World) :
  afterCandidates cs rest (afterCall (PcAddIceCandidate x) rest' w) =
  afterCandidates (x :: cs) rest w.
Proof.
  unfold afterCandidates, afterCall. simpl. now rewrite <- app_assoc.
Qed.

Lemma addIceCandidates_cons (x : Candidate) (cs : list Candidate) (w : World) :
  addIceCandidates (x :: cs) w =
  (pcCall (PcAddIceCandidate x) ;; addIceCandidates cs) w.
Proof.
  unfold addIceCandidates. simpl. unfold bind.
  destruct (pcCall (PcAddIceCandidate x) w) as [[d|e|] w1]; reflexivity.
Qed.

Lemma addIceCandidates_all (cs : list Candidate) (ds : list Sdp) (rest : list RtcResult)
  (w : World) (pc : PeerConnection) :
  _peerConnection (client w) = Some pc ->
  rtcInbox w = (map RtcOk ds ++ rest)%list ->
  length ds = length cs ->
  addIceCandidates cs w = (Ret tt, afterCandidates cs rest w).
Proof.
  revert ds w. induction cs as [|x cs IH]; intros ds w P H L.
  - destruct ds; [|discriminate]. simpl in H. unfold afterCandidates, added. simpl.
    rewrite app_nil_r. destruct w. simpl in *. now subst.
  - destruct ds as [|d ds]; [discriminate|]. simpl in H, L.
    rewrite addIceCandidates_cons.
    erewrite bind_ret_run by (eapply pcCall_fulfilled; eassumption).
    erewrite IH with (ds := ds); [now rewrite afterCandidates_cons | exact P | reflexivity | lia].
Qed.

Lemma addIceCandidates_stops (cs : list Candidate) (ds : list Sdp) (e : Error)
  (rest : list RtcResult) (w : World) (pc : PeerConnection) :
  _peerConnection (client w) = Some pc ->
  rtcInbox w = (map RtcOk ds ++ RtcFailed e :: rest)%list ->
  length ds < length cs ->
  addIceCandidates cs w = (Throw e, afterCandidates (firstn (S (length ds)) cs) rest w).
Proof.
  revert ds w. induction cs as [|x cs IH]; intros ds w P H L.
  - simpl in L. lia.
  - rewrite addIceCandidates_cons. destruct ds as [|d ds]; simpl in H, L.
    + erewrite bind_throw_run by (eapply pcCall_rejected; eassumption).
      unfold afterCandidates, afterCall, added. simpl. reflexivity.
    + erewrite bind_ret_run by (eapply pcCall_fulfilled; eassumption).
      erewrite IH with (ds := ds); [| exact P | reflexivity | lia].
      change (firstn (S (length (d :: ds))) (x :: cs)) with (x :: firstn (S (length ds)) cs).
      now rewrite afterCandidates_cons.
Qed.

(** X8.  The candidates of a response are added to the connection one at a time,
    in the order of the response, each call awaited before the next.  When
    every call is fulfilled the loop returns after adding all of them.
    The first call that is rejected ends the loop with its error: the
    candidates after it are never passed to the connection. *)
Theorem candidates_are_added_in_order (cs : list Candidate) (w : World) (pc : PeerConnection) :
  _peerConnection (client w) = Some pc ->
  (forall ds rest,
     rtcInbox w = (map RtcOk ds ++ rest)%list ->
     length ds = length cs ->
     addIceCandidates cs w = (Ret tt, afterCandidates cs rest w)) /\
  (forall ds e rest,
     rtcInbox w = (map RtcOk ds ++ RtcFailed e :: rest)%list ->
     length ds < length cs ->
     addIceCandidates cs w =
       (Throw e, afterCandidates (firstn (S (length ds)) cs) rest w)).
Proof.
  intros P. split.
  - intros ds rest H L. eapply addIceCandidates_all; eassumption.
  - intros ds e rest H L. eapply addIceCandidates_stops; eassumption.
Qed.

Lemma candidates_are_added_in_order_witness :
  addIceCandidates ["c1"; "c2"; "c3"]
    (worldOf negotiatingClient [] [RtcOk ""; RtcOk ""; RtcOk ""; RtcOk "next"]) =
    (Ret tt,
     afterCandidates ["c1"; "c2"; "c3"] [RtcOk "next"]
       (worldOf negotiatingClient [] [RtcOk ""; RtcOk ""; RtcOk ""; RtcOk "next"])) /\
  addIceCandidates ["c1"; "c2"; "c3"]
    (worldOf negotiatingClient [] [RtcOk ""; RtcFailed (Rejection "bad candidate"); RtcOk ""]) =
    (Throw (Rejection "bad candidate"),
     afterCandidates ["c1"; "c2"] [RtcOk ""]
       (worldOf negotiatingClient [] [RtcOk ""; RtcFailed (Rejection "bad candidate"); RtcOk ""])).
Proof.
  split.
  - apply (proj1 (@candidates_are_added_in_order ["c1"; "c2"; "c3"]
                    (worldOf negotiatingClient [] [RtcOk ""; RtcOk ""; RtcOk ""; RtcOk "next"])
                    _ eq_refl) [""; ""; ""] [RtcOk "next"]); reflexivity.
  - apply (proj2 (@candidates_are_added_in_order ["c1"; "c2"; "c3"]
                    (worldOf negotiatingClient [] [RtcOk ""; RtcFailed (Rejection "bad candidate"); RtcOk ""])
                    _ eq_refl) [""] (Rejection "bad candidate") [RtcOk ""]);
      [reflexivity | simpl; lia].
Defined.

(** * Errors and the [error] event *)

(** What an outcome throws. *)
Definition thrown {A} (o : Outcome A) : list Error :=
  match o with
  | Throw e => [e]
  | _ => []
  end.

Lemma errorEvents_snoc (t : list Effect) (e : Effect) :
  errorEvents (t ++ [e]) = (errorEvents t ++ asError e)%list.
Proof. unfold errorEvents. rewrite flat_map_app. simpl. now rewrite app_nil_r. Qed.

(** [try { body } catch (error) { report; this.emit('error', { error });
    throw error }] around a body that emits no [error] itself. *)
Lemma reported_when_thrown (body : M unit) (report : Error -> M unit) (w : World) :
  stable noError body ->
  (forall e, stable noError (report e)) ->
  (forall e, total (report e)) ->
  let m := try_catch body (fun error => report error ;; emit (EvError error) ;; throw error) in
  errorEvents (trace (snd (m w))) = (errorEvents (trace w) ++ thrown (fst (m w)))%list.
Proof.
  intros S R T. cbv zeta. unfold try_catch.
  pose proof (noError_errorEvents (S w)) as H.
  destruct (body w) as [[[]|e|] w1]; simpl in *; rewrite ?app_nil_r; try exact H.
  destruct (bind_total (fun _ => emit (EvError e) ;; @throw unit e) w1 (T e)) as [[] ->].
  pose proof (noError_errorEvents (R e w1)) as H1.
  cbn. rewrite errorEvents_snoc, H1, H. reflexivity.
Qed.

Lemma connect_first (peerId0 : string) (w : World) :
  connect peerId0 w =
  try_finally
    (try_catch
       (update (set_peerId (Some peerId0)) ;;
        update (set_isOfferer true) ;;
        c <- getClient ;;
        match find (fun p => Peer.id p =? peerId0) (matchList c) with
        | Some peer => update (set_peerName (Some (Peer.name peer)))
        | None => ret tt
        end ;;
        _createPeerConnection ;;
        onPeerConnection (fun _ =>
          effect (PcCreateDataChannel "data") ;;
          update (set_dataChannel (Some {| readyState := "connecting" |}))) ;;
        offer <- pcCall PcCreateOffer ;;
        pcSetLocalDescription offer ;;
        _waitForIceCandidates ;;
        c <- getClient ;;
        sdp <- onPeerConnection (fun pc => ret (localDescription pc)) ;;
        response <- _apiCall (ReqSendSignal (id c) (Some peerId0) "offer" sdp
                                (Some (_pendingCandidates c)) None) ;;
        if negb (Response.success response) then throw (ErrorMsg (Response.message response))
        else
          update (set_status (Response.next_status response)) ;;
          update (set_pendingCandidates []))
       (fun error => effect (ConsoleError error) ;; emit (EvError error) ;; throw error))
    (update (set_isProcessingSignal false))
    (withClient (set_isProcessingSignal true (client w)) w).
Proof. reflexivity. Qed.

(** X9.  [register] and [connect] emit [error] exactly when they throw: once,
    after everything else they did, with the thrown error as payload; when
    they return or stay suspended they emit none.  [send] and [disconnect]
    never emit [error]: a [send] without an open channel throws without an
    event. *)
Theorem errors_are_reported_once (peerId0 : string) (data : Json) (w : World) :
  errorEvents (trace (snd (register w))) =
    (errorEvents (trace w) ++ thrown (fst (register w)))%list /\
  errorEvents (trace (snd (connect peerId0 w))) =
    (errorEvents (trace w) ++ thrown (fst (connect peerId0 w)))%list /\
  errorEvents (trace (snd (send data w))) = errorEvents (trace w) /\
  errorEvents (trace (snd (disconnect w))) = errorEvents (trace w).
Proof.
  split; [| split; [| split]].
  - unfold register.
    match goal with |- context [try_catch ?body _] =>
      assert (S : stable noError body) by stable_ops view_side
    end.
    apply (@reported_when_thrown _ (fun _ => ret tt) w S).
    + intros e. apply stable_ret.
    + intros e. apply total_ret.
  - rewrite connect_first.
    match goal with |- context [try_catch ?body _] =>
      assert (S : stable noError body) by stable_ops view_side;
      pose proof (@reported_when_thrown body (fun error => effect (ConsoleError error))
                    (withClient (set_isProcessingSignal true (client w)) w) S) as H
    end.
    cbv zeta in H. unfold try_finally.
    match type of H with _ -> _ -> errorEvents (trace (snd (?m ?w0))) = _ =>
      destruct (m w0) as [[[]|e|] w1]
    end; simpl in *; apply H; intros e0; try (stable_ops view_side); total_ops.
  - assert (S : stable noError (send data)) by stable_ops view_side.
    exact (noError_errorEvents (S w)).
  - assert (S : stable noError disconnect) by stable_ops view_side.
    exact (noError_errorEvents (S w)).
Qed.

(** * [connect] (lines 170-228) *)


Definition neverCloses (e : Effect) : Prop :=
  match e with
  | PcClose | DcClose => False
  | _ => True
  end.






(** The name [connect] finds for its peer (lines 178-181): the one of the
    first entry of the match list with that id, else the name the client
    had. *)
Definition nameOf (peerId0 : string) (c : Client) : option string :=
  match find (fun p => Peer.id p =? peerId0) (matchList c) with
  | Some peer => Some (Peer.name peer)
  | None => peerName c
  end.

(** The client of [connect] once the peer connection and the data channel
    are created, and once the offer [offer] is its local description. *)
Definition dialling (peerId0 : string) (c : Client) : Client :=
  set_dataChannel (Some {| readyState := "connecting" |})
    (set_pendingCandidates []
       (set_peerConnection (Some {| localDescription := None; connectionState := "new" |})
          (set_peerName (nameOf peerId0 c)
             (set_isOfferer true
                (set_peerId (Some peerId0)
                   (set_isProcessingSignal true c)))))).

Definition offered (peerId0 : string) (offer : Sdp) (c : Client) : Client :=
  set_peerConnection (Some {| localDescription := Some offer; connectionState := "new" |})
    (dialling peerId0 c).

(** What [connect] does up to the answer of the endpoint. *)
Definition offerTrace (peerId0 : string) (offer : Sdp) (c : Client) : list Effect :=
  [ NewRTCPeerConnection; PcCreateDataChannel "data";
    PcCreateOffer; Await (dialling peerId0 c);
    PcSetLocalDescription offer; Await (dialling peerId0 c);
    SetTimeout 1000; Await (offered peerId0 offer c);
    Fetch (ReqSendSignal (id c) (Some peerId0) "offer" (Some offer)
             (Some (_pendingCandidates (offered peerId0 offer c))) None);
    Await (offered peerId0 offer c) ].

(** Lines 213-218: what [connect] makes of the settled request. *)
Definition answeredBy (settled : FetchResult) (c : Client) : Client :=
  match settled with
  | Body r =>
      if Response.success r
      then set_pendingCandidates [] (set_status (Response.next_status r) c)
      else c
  | FetchFailed _ => c
  end.

(** The [catch] block of [connect] (lines 221-224). *)
Definition reporting (settled : FetchResult) : list Effect :=
  match failure settled with
  | Some error => [ConsoleError error; Emit (EvError error)]
  | None => []
  end.

Lemma connect_settled (peerId0 : string) (w : World) (offer d : Sdp)
  (rtcs : list RtcResult) (settled : FetchResult) (rest : list FetchResult) :
  rtcInbox w = RtcOk offer :: RtcOk d :: rtcs ->
  fetchInbox w = settled :: rest ->
  connect peerId0 w =
  (match failure settled with Some error => Throw error | None => Ret tt end,
   {| client :=
        set_isProcessingSignal false
          (answeredBy settled (offered peerId0 offer (client w)));
      trace := (trace w ++ offerTrace peerId0 offer (client w) ++ reporting settled)%list;
      fetchInbox := rest; rtcInbox := rtcs; timers := timers w |}).
Proof.
  intros R F.
  destruct w as [[s i st p pn ml ic pt pc dc pend io f] t fi ri n].
  simpl in R, F. subst fi ri.
  unfold connect, offerTrace, offered, dialling, nameOf, answeredBy, reporting, failure.
  set (isPeer := fun p0 : Peer.t => Peer.id p0 =? peerId0).
  cbv - [app find isPeer].
  destruct (find isPeer ml) as [peer|];
    destruct settled as [[[|] me ns i' ml' ty sd ca pi pn']|e];
    cbv - [app]; repeat rewrite <- app_assoc; reflexivity.
Qed.

Lemma emitted_app (t1 t2 : list Effect) :
  emitted (t1 ++ t2) = (emitted t1 ++ emitted t2)%list.
Proof. apply flat_map_app. Qed.

Lemma requests_app (t1 t2 : list Effect) :
  requests (t1 ++ t2) = (requests t1 ++ requests t2)%list.
Proof. apply flat_map_app. Qed.

(** X11.  A [connect] that goes through: the offer is created and set as local
    description, and the endpoint accepts it.  [connect] returns; it has
    sent one request, an [offer] for the peer carrying the local description
    and the candidates gathered; the status is the response's [next_status],
    the pending candidates are cleared and the processing flag is down; the
    client is assigned to the peer, under the name the match list has for it
    or, when the peer is not in the list, under the name of the peer before;
    no event is emitted. *)
Theorem connect_accepted (peerId0 : string) (w : World) (offer d : Sdp)
  (rtcs : list RtcResult) (r : Response.t) (rest : list FetchResult) :
  rtcInbox w = RtcOk offer :: RtcOk d :: rtcs ->
  fetchInbox w = Body r :: rest ->
  Response.success r = true ->
  let w' := snd (connect peerId0 w) in
  fst (connect peerId0 w) = Ret tt /\
  status (client w') = Response.next_status r /\
  peerId (client w') = Some peerId0 /\
  peerName (client w') = nameOf peerId0 (client w) /\
  _peerConnection (client w') =
    Some {| localDescription := Some offer; connectionState := "new" |} /\
  _dataChannel (client w') = Some {| readyState := "connecting" |} /\
  _pendingCandidates (client w') = [] /\
  _isProcessingSignal (client w') = false /\
  (exists candidates,
     requests (trace w') =
     (requests (trace w) ++
      [ReqSendSignal (id (client w)) (Some peerId0) "offer" (Some offer)
         (Some candidates) None])%list) /\
  emitted (trace w') = emitted (trace w).
Proof.
  intros R F S. cbv zeta. rewrite (connect_settled peerId0 _ R F).
  unfold failure, answeredBy, reporting, failure. rewrite S. cbn [fst snd client trace].
  repeat split.
  - eexists. rewrite requests_app. reflexivity.
  - rewrite emitted_app. cbn. now rewrite app_nil_r.
Qed.

(** X12.  A [connect] whose offer the endpoint does not take, because the request
    is rejected or because the response has [success] false.  [connect]
    throws the error, after logging it and emitting one [error] event that
    carries it.  The status is as it was, but nothing is undone: the client
    stays assigned to the peer and keeps the peer connection, with the offer
    as local description, and the data channel; neither is closed.  The
    processing flag is down. *)
Theorem connect_refused (peerId0 : string) (w : World) (offer d : Sdp)
  (rtcs : list RtcResult) (settled : FetchResult) (rest : list FetchResult)
  (error : Error) :
  rtcInbox w = RtcOk offer :: RtcOk d :: rtcs ->
  fetchInbox w = settled :: rest ->
  failure settled = Some error ->
  let w' := snd (connect peerId0 w) in
  fst (connect peerId0 w) = Throw error /\
  status (client w') = status (client w) /\
  peerId (client w') = Some peerId0 /\
  _peerConnection (client w') =
    Some {| localDescription := Some offer; connectionState := "new" |} /\
  _dataChannel (client w') = Some {| readyState := "connecting" |} /\
  _isProcessingSignal (client w') = false /\
  emitted (trace w') = (emitted (trace w) ++ [EvError error])%list /\
  exists t, trace w' = (trace w ++ t ++ [ConsoleError error; Emit (EvError error)])%list /\
            Forall neverCloses t.
Proof.
  intros R F E. cbv zeta. rewrite (connect_settled peerId0 _ R F).
  unfold reporting. rewrite E.
  replace (answeredBy settled (offered peerId0 offer (client w)))
    with (offered peerId0 offer (client w)).
  - cbn [fst snd client trace]. repeat split.
    + rewrite !emitted_app. cbn. reflexivity.
    + eexists. split; [reflexivity|]. unfold offerTrace. repeat constructor.
  - destruct settled as [r|e]; [|reflexivity]. simpl in *.
    destruct (Response.success r); [discriminate | reflexivity].
Qed.

(** Alice, waiting with Bob in her match list, connects to him: the
    endpoint accepts the offer, or refuses it. *)
Definition matchedClient : Client := set_matchList [bob] waitingClient.

Definition connectWorld : World :=
  worldOf matchedClient [Body (reply true (Some "wait_answer") None)]
    [RtcOk "offer-sdp"; RtcOk ""].

Definition refusedWorld : World :=
  worldOf matchedClient [Body (reply false None (Some "peer is busy"))]
    [RtcOk "offer-sdp"; RtcOk ""].

Lemma connect_accepted_witness :
  fst (connect "u2" connectWorld) = Ret tt /\
  status (client (snd (connect "u2" connectWorld))) = Some "wait_answer" /\
  peerId (client (snd (connect "u2" connectWorld))) = Some "u2" /\
  peerName (client (snd (connect "u2" connectWorld))) = Some "Bob" /\
  _peerConnection (client (snd (connect "u2" connectWorld))) =
    Some {| localDescription := Some "offer-sdp"; connectionState := "new" |} /\
  _dataChannel (client (snd (connect "u2" connectWorld))) =
    Some {| readyState := "connecting" |} /\
  _pendingCandidates (client (snd (connect "u2" connectWorld))) = [] /\
  _isProcessingSignal (client (snd (connect "u2" connectWorld))) = false /\
  (exists candidates,
     requests (trace (snd (connect "u2" connectWorld))) =
     (requests (trace connectWorld) ++
      [ReqSendSignal (id (client connectWorld)) (Some "u2") "offer" (Some "offer-sdp")
         (Some candidates) None])%list) /\
  emitted (trace (snd (connect "u2" connectWorld))) = emitted (trace connectWorld).
Proof.
  exact (@connect_accepted "u2" connectWorld "offer-sdp" "" [] _ [] eq_refl eq_refl eq_refl).
Defined.

Lemma connect_refused_witness :
  fst (connect "u2" refusedWorld) = Throw (ErrorMsg (Some "peer is busy")) /\
  status (client (snd (connect "u2" refusedWorld))) = Some "wait_offer" /\
  peerId (client (snd (connect "u2" refusedWorld))) = Some "u2" /\
  _peerConnection (client (snd (connect "u2" refusedWorld))) =
    Some {| localDescription := Some "offer-sdp"; connectionState := "new" |} /\
  _dataChannel (client (snd (connect "u2" refusedWorld))) =
    Some {| readyState := "connecting" |} /\
  _isProcessingSignal (client (snd (connect "u2" refusedWorld))) = false /\
  emitted (trace (snd (connect "u2" refusedWorld))) =
    (emitted (trace refusedWorld) ++ [EvError (ErrorMsg (Some "peer is busy"))])%list /\
  exists t, trace (snd (connect "u2" refusedWorld)) =
              (trace refusedWorld ++ t ++
               [ConsoleError (ErrorMsg (Some "peer is busy"));
                Emit (EvError (ErrorMsg (Some "peer is busy")))])%list /\
            Forall neverCloses t.
Proof.
  exact (@connect_refused "u2" refusedWorld "offer-sdp" "" [] _ [] _ eq_refl eq_refl eq_refl).
Defined.

(** * [_handleOffer] (lines 371-429) *)

Definition candidatesOf (response : Response.t) : list Candidate :=
  match Response.candidates response with
  | Some cs => cs
  | None => []
  end.

(** The client of [_handleOffer] once the peer connection is created, and
    once the answer [answer] is its local description. *)
Definition answering (response : Response.t) (c : Client) : Client :=
  set_pendingCandidates []
    (set_peerConnection (Some {| localDescription := None; connectionState := "new" |})
       (set_isOfferer false
          (set_peerName (Some (orElse (Response.peer_name response) ""))
             (set_peerId (Response.peer_id response)
                (set_isProcessingSignal true c))))).

Definition answered (response : Response.t) (answer : Sdp) (c : Client) : Client :=
  set_peerConnection (Some {| localDescription := Some answer; connectionState := "new" |})
    (answering response c).

(** What [_handleOffer] does up to the reply of the endpoint. *)
Definition answerTrace (response : Response.t) (answer : Sdp) (c : Client) : list Effect :=
  ([ Emit (EvOffer (Response.peer_id response) (orElse (Response.peer_name response) ""));
     NewRTCPeerConnection;
     PcSetRemoteDescription (Response.sdp response); Await (answering response c) ] ++
   added (answering response c) (candidatesOf response) ++
   [ PcCreateAnswer; Await (answering response c);
     PcSetLocalDescription answer; Await (answering response c);
     SetTimeout 1000; Await (answered response answer c);
     Fetch (ReqSendSignal (id c) (Response.peer_id response) "answer" (Some answer)
              (Some (_pendingCandidates (answered response answer c))) None);
     Await (answered response answer c) ])%list.

Lemma handleOffer_settled (response : Response.t) (w : World) (d0 answer d1 : Sdp)
  (ds : list Sdp) (rtcs : list RtcResult) (reply0 : Response.t) (rest : list FetchResult) :
  rtcInbox w = (RtcOk d0 :: map RtcOk ds ++ RtcOk answer :: RtcOk d1 :: rtcs)%list ->
  length ds = length (candidatesOf response) ->
  fetchInbox w = Body reply0 :: rest ->
  _handleOffer response w =
  (Ret tt,
   {| client :=
        set_isProcessingSignal false
          (set_pendingCandidates [] (answered response answer (client w)));
      trace := (trace w ++ answerTrace response answer (client w))%list;
      fetchInbox := rest; rtcInbox := rtcs; timers := timers w |}).
Proof.
  intros R L F.
  destruct w as [[s i st p pn ml ic pt pc dc pend io f] t fi ri n].
  simpl in R, F.
  destruct response as [su me ns i' ml' ty sd [cs|] pi pn']; unfold candidatesOf in L; simpl in L.
  - subst fi ri.
    unfold _handleOffer, answerTrace, answered, answering, candidatesOf.
    cbv - [app map addIceCandidates added orElse].
    erewrite addIceCandidates_all; [| reflexivity | reflexivity | exact L].
    cbv - [app added orElse]. repeat rewrite <- app_assoc. reflexivity.
  - destruct ds; [|discriminate]. simpl in R. subst fi ri.
    unfold _handleOffer, answerTrace, answered, answering, candidatesOf.
    cbv - [app orElse]. repeat rewrite <- app_assoc. cbn [app]. reflexivity.
Qed.

(** The calls on the peer connection and the data channel. *)
Definition asTransportCall (e : Effect) : list Effect :=
  match e with
  | NewRTCPeerConnection | PcCreateDataChannel _ | PcCreateOffer | PcCreateAnswer
  | PcSetLocalDescription _ | PcSetRemoteDescription _ | PcAddIceCandidate _
  | PcClose | DcClose | DcSend _ => [e]
  | _ => []
  end.

Definition transportCalls (t : list Effect) : list Effect := flat_map asTransportCall t.

Lemma transportCalls_app (t1 t2 : list Effect) :
  transportCalls (t1 ++ t2) = (transportCalls t1 ++ transportCalls t2)%list.
Proof. apply flat_map_app. Qed.

Lemma transportCalls_added (c : Client) (cs : list Candidate) :
  transportCalls (added c cs) = map PcAddIceCandidate cs.
Proof. induction cs as [|x cs IH]; simpl; [reflexivity | now rewrite IH]. Qed.

Lemma requests_added (c : Client) (cs : list Candidate) : requests (added c cs) = [].
Proof. induction cs as [|x cs IH]; simpl; [reflexivity | exact IH]. Qed.

(** X13.  An offer that is answered: every call on the peer connection is
    fulfilled and the request that carries the answer is answered.
    [_handleOffer] creates a peer connection, sets the offer as its remote
    description, adds the candidates of the response in their order, creates
    the answer and sets it as local description; it then sends one request,
    an [answer] for the peer of the response carrying the local description
    and the candidates gathered, and returns with the pending candidates
    cleared and the processing flag down.  What the endpoint replies is not
    looked at: a reply with [success] false is taken like any other.  The
    status is not written. *)
Theorem offer_is_answered (response : Response.t) (w : World) (d0 answer d1 : Sdp)
  (ds : list Sdp) (rtcs : list RtcResult) (reply0 : Response.t) (rest : list FetchResult) :
  rtcInbox w = (RtcOk d0 :: map RtcOk ds ++ RtcOk answer :: RtcOk d1 :: rtcs)%list ->
  length ds = length (candidatesOf response) ->
  fetchInbox w = Body reply0 :: rest ->
  let w' := snd (_handleOffer response w) in
  fst (_handleOffer response w) = Ret tt /\
  transportCalls (trace w') =
    (transportCalls (trace w) ++
     [NewRTCPeerConnection; PcSetRemoteDescription (Response.sdp response)] ++
     map PcAddIceCandidate (candidatesOf response) ++
     [PcCreateAnswer; PcSetLocalDescription answer])%list /\
  (exists candidates,
     requests (trace w') =
     (requests (trace w) ++
      [ReqSendSignal (id (client w)) (Response.peer_id response) "answer" (Some answer)
         (Some candidates) None])%list) /\
  _peerConnection (client w') =
    Some {| localDescription := Some answer; connectionState := "new" |} /\
  _pendingCandidates (client w') = [] /\
  _isProcessingSignal (client w') = false /\
  status (client w') = status (client w).
Proof.
  intros R L F. cbv zeta. rewrite (@handleOffer_settled response w d0 answer d1 ds rtcs reply0 rest R L F).
  cbn [fst snd client trace]. unfold answerTrace. repeat split.
  - rewrite !transportCalls_app, transportCalls_added. cbn. reflexivity.
  - eexists. rewrite !requests_app, requests_added. cbn. reflexivity.
Qed.

(** An offer with two candidates reaches Alice while she waits; the
    endpoint turns her answer down. *)
Definition offerResponse : Response.t :=
  {| Response.success := true; Response.message := None;
     Response.next_status := Some "wait_ice"; Response.id := None;
     Response.match_list := None; Response.type := Some "offer";
     Response.sdp := Some "offer-sdp"; Response.candidates := Some ["c1"; "c2"];
     Response.peer_id := Some "u2"; Response.peer_name := None |}.

Definition offeredWorld : World :=
  worldOf waitingClient [Body (reply false None (Some "too late"))]
    [RtcOk ""; RtcOk ""; RtcOk ""; RtcOk "answer-sdp"; RtcOk ""].

Lemma offer_is_answered_witness :
  fst (_handleOffer offerResponse offeredWorld) = Ret tt /\
  transportCalls (trace (snd (_handleOffer offerResponse offeredWorld))) =
    [NewRTCPeerConnection; PcSetRemoteDescription (Some "offer-sdp");
     PcAddIceCandidate "c1"; PcAddIceCandidate "c2";
     PcCreateAnswer; PcSetLocalDescription "answer-sdp"] /\
  (exists candidates,
     requests (trace (snd (_handleOffer offerResponse offeredWorld))) =
     [ReqSendSignal (Some "u1") (Some "u2") "answer" (Some "answer-sdp")
        (Some candidates) None]) /\
  _peerConnection (client (snd (_handleOffer offerResponse offeredWorld))) =
    Some {| localDescription := Some "answer-sdp"; connectionState := "new" |} /\
  _pendingCandidates (client (snd (_handleOffer offerResponse offeredWorld))) = [] /\
  _isProcessingSignal (client (snd (_handleOffer offerResponse offeredWorld))) = false /\
  status (client (snd (_handleOffer offerResponse offeredWorld))) = Some "wait_offer".
Proof.
  exact (@offer_is_answered offerResponse offeredWorld "" "answer-sdp" "" [""; ""] []
           _ [] eq_refl eq_refl eq_refl).
Defined.








(** * A tick whose response is dispatched (lines 331-364) *)

(** The world in which the response [response] is dispatched: the request of
    the tick has settled and, when the response sends the client back to
    [wait_offer], the recovery has run. *)
Definition dispatchWorld (response : Response.t) (rest : list FetchResult) (w : World) : World :=
  let w1 := afterRequest (pollRequest (client w)) rest w in
  if sentBackToWaitOffer response (client w1) then snd (_handleRecovery w1) else w1.

Lemma poll_dispatch (w : World) (r : Response.t) (rest : list FetchResult) :
  fetchInbox w = Body r :: rest ->
  Response.success r = true ->
  _poll w =
  try_catch (routeResponse r ;; adoptStatus r) (fun error => effect (ConsoleWarn error))
    (dispatchWorld r rest w).
Proof.
  intros F S.
  rewrite (poll_answered w (apiCall_answered (pollRequest (client w)) w F)).
  unfold onPollResponse. rewrite S. cbn [negb].
  unfold onPollSuccess, try_catch, dispatchWorld. cbv zeta. rewrite bind_getClient.
  destruct (sentBackToWaitOffer r (client (afterRequest (pollRequest (client w)) rest w))).
  - destruct (bind_total (fun _ => routeResponse r ;; adoptStatus r)
                (afterRequest (pollRequest (client w)) rest w) total_handleRecovery) as [[] ->].
    reflexivity.
  - reflexivity.
Qed.

Lemma routeResponse_noError (r : Response.t) : stable noError (routeResponse r).
Proof. stable_ops view_side. Qed.

Lemma handleRecovery_noError : stable noError _handleRecovery.
Proof. stable_ops view_side. Qed.

Lemma dispatchWorld_spec (r : Response.t) (rest : list FetchResult) (w : World) :
  status (client (dispatchWorld r rest w)) = status (client w) /\
  errorEvents (trace (dispatchWorld r rest w)) = errorEvents (trace w).
Proof.
  unfold dispatchWorld. cbv zeta.
  set (w1 := afterRequest (pollRequest (client w)) rest w).
  assert (E1 : errorEvents (trace w1) = errorEvents (trace w)).
  { unfold w1, afterRequest. cbn [trace]. unfold errorEvents. rewrite flat_map_app.
    cbn. now rewrite app_nil_r. }
  destruct (sentBackToWaitOffer r (client w1)).
  - split.
    + exact (keeps_rel (handleRecovery_keeps_status w1)).
    + rewrite (noError_errorEvents (handleRecovery_noError w1)). exact E1.
  - split; [reflexivity | exact E1].
Qed.

(** X15.  The status after a tick whose response has [success] true.  The
    response is dispatched on its [type], after the recovery if it sends the
    client back to [wait_offer].  When the dispatch returns, the status
    becomes the response's [next_status], unless it was [connected] already.
    When the dispatch throws, an offer, an answer or a candidate that could
    not be applied, the tick logs the error with [console.warn] and returns:
    the status is left as it was, and no [error] event is emitted, then or
    in any other case. *)
Theorem tick_adopts_status_unless_dispatch_fails (w : World) (r : Response.t)
  (rest : list FetchResult) :
  fetchInbox w = Body r :: rest ->
  Response.success r = true ->
  let w1 := dispatchWorld r rest w in
  errorEvents (trace (snd (_poll w))) = errorEvents (trace w) /\
  (forall w2, routeResponse r w1 = (Ret tt, w2) ->
     fst (_poll w) = Ret tt /\
     status (client (snd (_poll w))) =
       if isStr (status (client w)) "connected" then status (client w)
       else Response.next_status r) /\
  (forall e w2, routeResponse r w1 = (Throw e, w2) ->
     _poll w = (Ret tt, addTrace (ConsoleWarn e) w2) /\
     status (client w2) = status (client w)).
Proof.
  intros F S. cbv zeta. rewrite (poll_dispatch w F S).
  destruct (dispatchWorld_spec r rest w) as [St Er].
  pose proof (keeps_rel (routeResponse_keeps_status r (dispatchWorld r rest w))) as K.
  pose proof (noError_errorEvents (routeResponse_noError r (dispatchWorld r rest w))) as N.
  unfold try_catch. split; [| split].
  - unfold bind. destruct (routeResponse r (dispatchWorld r rest w)) as [[[]|e|] w2];
      simpl in *; try congruence.
    + unfold adoptStatus, bind, getClient, update, ret.
      destruct (negb (isStr (status (client w2)) "connected")); simpl; congruence.
    + rewrite errorEvents_snoc. simpl. rewrite app_nil_r. congruence.
  - intros w2 H. erewrite bind_ret_run by exact H. rewrite H in K. simpl in K.
    unfold adoptStatus. rewrite bind_getClient. rewrite K, St.
    destruct (isStr (status (client w)) "connected") eqn:C; simpl.
    + split; [reflexivity | congruence].
    + split; reflexivity.
  - intros e w2 H. erewrite bind_throw_run by exact H. rewrite H in K. simpl in K.
    split; [reflexivity | congruence].
Qed.

(** An answer reaches a client that has no peer connection (any more). *)
Definition lateAnswer : Response.t :=
  {| Response.success := true; Response.message := None;
     Response.next_status := Some "wait_ice"; Response.id := None;
     Response.match_list := None; Response.type := Some "answer";
     Response.sdp := Some "answer-sdp"; Response.candidates := None;
     Response.peer_id := None; Response.peer_name := None |}.

Definition lateAnswerWorld : World := worldOf waitingClient [Body lateAnswer] [].

Lemma tick_adopts_status_unless_dispatch_fails_witness :
  _poll lateAnswerWorld =
    (Ret tt,
     {| client := waitingClient;
        trace := [Fetch (pollRequest waitingClient); Await waitingClient;
                  ConsoleError TypeError; ConsoleWarn TypeError];
        fetchInbox := []; rtcInbox := []; timers := 1 |}) /\
  status waitingClient = Some "wait_offer".
Proof.
  vm_compute.
  exact (proj2 (proj2 (@tick_adopts_status_unless_dispatch_fails lateAnswerWorld lateAnswer []
                         eq_refl eq_refl))
           TypeError _ eq_refl).
Defined.

(** * [_handleAnswer] (lines 435-457) *)

Lemma handleAnswer_applied (response : Response.t) (w : World) (pc : PeerConnection)
  (d0 : Sdp) (ds : list Sdp) (rtcs : list RtcResult) :
  _peerConnection (client w) = Some pc ->
  rtcInbox w = (RtcOk d0 :: map RtcOk ds ++ rtcs)%list ->
  length ds = length (candidatesOf response) ->
  _handleAnswer response w =
  (Ret tt,
   {| client := set_isProcessingSignal false (client w);
      trace :=
        (trace w ++
         [PcSetRemoteDescription (Response.sdp response);
          Await (set_isProcessingSignal true (client w))] ++
         added (set_isProcessingSignal true (client w)) (candidatesOf response))%list;
      fetchInbox := fetchInbox w; rtcInbox := rtcs; timers := timers w |}).
Proof.
  intros P R L.
  destruct w as [[s i st p pn ml ic pt pc0 dc pend io f] t fi ri n].
  simpl in P, R. subst pc0.
  destruct response as [su me ns i' ml' ty sd [cs|] pi pn']; unfold candidatesOf in L; simpl in L.
  - subst ri. unfold _handleAnswer, candidatesOf.
    cbv - [app map addIceCandidates added].
    erewrite addIceCandidates_all; [| reflexivity | reflexivity | exact L].
    cbv - [app added]. repeat rewrite <- app_assoc. reflexivity.
  - destruct ds; [|discriminate]. simpl in R. subst ri.
    unfold _handleAnswer, candidatesOf.
    cbv - [app]. repeat rewrite <- app_assoc. cbn [app]. reflexivity.
Qed.

(** X16.  An answer is applied to the connection of the client: the answer is set
    as remote description, then the candidates of the response are added in
    their order, and [_handleAnswer] returns with the processing flag down.
    It sends nothing to the endpoint, emits nothing and writes no other
    field of the client.  Without a peer connection it throws a [TypeError]
    before any call, after logging it, the flag down as well. *)
Theorem answer_is_applied (response : Response.t) (w : World) :
  (forall pc d0 ds rtcs,
     _peerConnection (client w) = Some pc ->
     rtcInbox w = (RtcOk d0 :: map RtcOk ds ++ rtcs)%list ->
     length ds = length (candidatesOf response) ->
     _handleAnswer response w =
     (Ret tt,
      {| client := set_isProcessingSignal false (client w);
         trace :=
           (trace w ++
            [PcSetRemoteDescription (Response.sdp response);
             Await (set_isProcessingSignal true (client w))] ++
            added (set_isProcessingSignal true (client w)) (candidatesOf response))%list;
         fetchInbox := fetchInbox w; rtcInbox := rtcs; timers := timers w |})) /\
  (_peerConnection (client w) = None ->
   _handleAnswer response w =
   (Throw TypeError,
    addTrace (ConsoleError TypeError)
      (withClient (set_isProcessingSignal false (client w)) w))).
Proof.
  split.
  - intros pc d0 ds rtcs P R L. eapply handleAnswer_applied; eassumption.
  - intros P.
    destruct w as [[s i st p pn ml ic pt pc0 dc pend io f] t fi ri n].
    simpl in P. subst pc0. reflexivity.
Qed.

Definition answerResponse : Response.t :=
  {| Response.success := true; Response.message := None;
     Response.next_status := Some "wait_ice"; Response.id := None;
     Response.match_list := None; Response.type := Some "answer";
     Response.sdp := Some "answer-sdp"; Response.candidates := Some ["c1"; "c2"];
     Response.peer_id := None; Response.peer_name := None |}.

Lemma answer_is_applied_witness :
  _handleAnswer answerResponse (worldOf negotiatingClient [] [RtcOk ""; RtcOk ""; RtcOk ""]) =
    (Ret tt,
     {| client := negotiatingClient;
        trace := [PcSetRemoteDescription (Some "answer-sdp");
                  Await (set_isProcessingSignal true negotiatingClient);
                  PcAddIceCandidate "c1";
                  Await (set_isProcessingSignal true negotiatingClient);
                  PcAddIceCandidate "c2";
                  Await (set_isProcessingSignal true negotiatingClient)];
        fetchInbox := []; rtcInbox := []; timers := 1 |}) /\
  _handleAnswer answerResponse (worldOf waitingClient [] [RtcOk ""]) =
    (Throw TypeError,
     {| client := waitingClient; trace := [ConsoleError TypeError];
        fetchInbox := []; rtcInbox := [RtcOk ""]; timers := 1 |}).
Proof.
  split.
  - vm_compute.
    exact (proj1 (answer_is_applied answerResponse
                    (worldOf negotiatingClient [] [RtcOk ""; RtcOk ""; RtcOk ""]))
             _ "" [""; ""] [] eq_refl eq_refl eq_refl).
  - vm_compute.
    exact (proj2 (answer_is_applied answerResponse (worldOf waitingClient [] [RtcOk ""]))
             eq_refl).
Defined.

(** * The callbacks of the transport *)

(** The candidates of a sequence of [icecandidate] events; the event that
    ends the gathering carries none. *)
Definition gathered (events : list (option Candidate)) : list Candidate :=
  flat_map (fun candidate => match candidate with Some c => [c] | None => [] end) events.

Lemma run_candidates (events : list (option Candidate)) (w : World) :
  run (map IceCandidate events) w =
  withClient (set_pendingCandidates (_pendingCandidates (client w) ++ gathered events)%list
                (client w)) w.
Proof.
  revert w. induction events as [|[c|] events IH]; intros w.
  - simpl. rewrite app_nil_r. now destruct w as [[] ? ? ? ?].
  - change (run (map IceCandidate (Some c :: events)) w)
      with (run (map IceCandidate events) (snd (onicecandidate (Some c) w))).
    rewrite IH. destruct w as [[] ? ? ? ?]. cbn. rewrite <- app_assoc. reflexivity.
  - change (run (map IceCandidate (None :: events)) w)
      with (run (map IceCandidate events) w).
    apply IH.
Qed.

(** X17.  The candidates the connection reports are kept in [_pendingCandidates]
    in the order of the reports, after those already there; the report that
    ends the gathering adds nothing; the callback calls nothing.  A new peer
    connection starts from an empty list: what was gathered for an earlier
    one is dropped. *)
Theorem candidates_are_gathered (events : list (option Candidate)) (w : World) :
  _pendingCandidates (client (run (map IceCandidate events) w)) =
    (_pendingCandidates (client w) ++ gathered events)%list /\
  trace (run (map IceCandidate events) w) = trace w /\
  _pendingCandidates
    (client (run (map IceCandidate events) (snd (_createPeerConnection w)))) =
    gathered events.
Proof.
  rewrite !run_candidates. repeat split.
Qed.

(** X18.  When the connection comes up and is then lost, the loss is only
    announced.  The report [connected] stops the polling, tells the endpoint
    and emits [connected]; the report [disconnected] or [failed] that
    follows clears [isConnected] and emits [disconnected] with the state as
    reason, and that is all: the status stays [connected], the polling is
    not started again, the peer connection and the data channel are neither
    closed nor dropped, and the peer stays assigned. *)
Theorem connection_loss_is_only_announced (state : string) (w : World) (pc : PeerConnection) :
  _peerConnection (client w) = Some pc ->
  state = "disconnected" \/ state = "failed" ->
  let w1 := snd (onconnectionstatechange "connected" w) in
  let w2 := snd (onconnectionstatechange state w1) in
  isConnected (client w1) = true /\
  isConnected (client w2) = false /\
  status (client w2) = Some "connected" /\
  _pollingTimer (client w2) = None /\
  peerId (client w2) = peerId (client w) /\
  _dataChannel (client w2) = _dataChannel (client w) /\
  _peerConnection (client w2) =
    Some {| localDescription := localDescription pc; connectionState := state |} /\
  trace w2 =
    (trace w ++
     match _pollingTimer (client w) with Some t => [ClearInterval t] | None => [] end ++
     [Fetch (ReqSendSignal (id (client w)) (peerId (client w)) "polling" None None
               (Some "connected"));
      Emit (EvConnected (peerId (client w)) (peerName (client w)));
      Emit (EvDisconnected state)])%list.
Proof.
  intros P S. cbv zeta.
  destruct w as [[s i st p pn ml ic [pt|] pc0 dc pend io f] t fi ri n];
    simpl in P; subst pc0;
    destruct S as [-> | ->]; cbv - [app]; repeat rewrite <- app_assoc;
    repeat split; reflexivity.
Qed.

Lemma connection_loss_is_only_announced_witness :
  isConnected (client (snd (onconnectionstatechange "connected" (worldOf negotiatingClient [] [])))) = true /\
  isConnected (client (snd (onconnectionstatechange "failed"
     (snd (onconnectionstatechange "connected" (worldOf negotiatingClient [] [])))))) = false /\
  status (client (snd (onconnectionstatechange "failed"
     (snd (onconnectionstatechange "connected" (worldOf negotiatingClient [] [])))))) =
    Some "connected" /\
  _pollingTimer (client (snd (onconnectionstatechange "failed"
     (snd (onconnectionstatechange "connected" (worldOf negotiatingClient [] [])))))) = None /\
  peerId (client (snd (onconnectionstatechange "failed"
     (snd (onconnectionstatechange "connected" (worldOf negotiatingClient [] [])))))) =
    Some "u2" /\
  _dataChannel (client (snd (onconnectionstatechange "failed"
     (snd (onconnectionstatechange "connected" (worldOf negotiatingClient [] [])))))) =
    Some {| readyState := "connecting" |} /\
  _peerConnection (client (snd (onconnectionstatechange "failed"
     (snd (onconnectionstatechange "connected" (worldOf negotiatingClient [] [])))))) =
    Some {| localDescription := Some "offer-sdp"; connectionState := "failed" |} /\
  trace (snd (onconnectionstatechange "failed"
     (snd (onconnectionstatechange "connected" (worldOf negotiatingClient [] []))))) =
    [ClearInterval 1;
     Fetch (ReqSendSignal (Some "u1") (Some "u2") "polling" None None (Some "connected"));
     Emit (EvConnected (Some "u2") (Some "Bob"));
     Emit (EvDisconnected "failed")].
Proof.
  vm_compute.
  exact (@connection_loss_is_only_announced "failed" (worldOf negotiatingClient [] []) _
           eq_refl (or_intror eq_refl)).
Defined.

(** * [send] once the transport is gone *)

Lemma send_without_channel (data : Json) (w : World) :
  _dataChannel (client w) = None ->
  send data w = (Throw (ErrorMsg (Some "接続されていません")), w).
Proof. intros H. unfold send. now rewrite bind_getClient, H. Qed.

Lemma reconnect_keeps_dataChannel :
  stable (keeps _dataChannel) (try_catch register reconnectHandler).
Proof. keeps_ops. Qed.

(** X19.  After [disconnect], after the recovery or the automatic re-registration
    of a tick, and after [_handleReset], the data channel is gone: [send]
    throws and passes nothing to a channel, until a new connection is
    made. *)
Theorem nothing_is_sent_after_teardown (data : Json) (r : Response.t) (w : World) :
  send data (snd (disconnect w)) =
    (Throw (ErrorMsg (Some "接続されていません")), snd (disconnect w)) /\
  send data (snd (_handleRecovery w)) =
    (Throw (ErrorMsg (Some "接続されていません")), snd (_handleRecovery w)) /\
  send data (snd (_handleAutoReconnect w)) =
    (Throw (ErrorMsg (Some "接続されていません")), snd (_handleAutoReconnect w)) /\
  send data (snd (_handleReset r w)) =
    (Throw (ErrorMsg (Some "接続されていません")), snd (_handleReset r w)).
Proof.
  split; [| split; [| split]]; apply send_without_channel.
  - rewrite disconnect_run. cbn [snd client]. now destruct (client w).
  - apply handleRecovery_spec.
  - rewrite handleAutoReconnect_run.
    rewrite (keeps_rel (reconnect_keeps_dataChannel (snd (forgetSession w)))).
    apply forgetSession_spec.
  - rewrite handleReset_run. cbn [snd client]. now destruct (client w).
Qed.

(** * Candidates that come too late (lines 345-347 and 463-469) *)

(** X20.  Candidates that reach a client without a peer connection are
    dropped.  When a tick is answered with a response of type [ice] while
    the client has no peer connection, and the response does not trigger
    the recovery, the tick does nothing but adopt the status: no call is
    made, nothing is logged or emitted, the candidates are not kept for a
    later connection, and the status becomes the response's [next_status]
    unless it was [connected]. *)
Theorem late_candidates_are_dropped (w : World) (r : Response.t) (rest : list FetchResult) :
  fetchInbox w = Body r :: rest ->
  Response.success r = true ->
  Response.type r = Some "ice" ->
  _peerConnection (client w) = None ->
  sentBackToWaitOffer r (client w) = false ->
  _poll w =
  (Ret tt,
   {| client := if isStr (status (client w)) "connected" then client w
                else set_status (Response.next_status r) (client w);
      trace := (trace w ++ [Fetch (pollRequest (client w)); Await (client w)])%list;
      fetchInbox := rest; rtcInbox := rtcInbox w; timers := timers w |}).
Proof.
  intros F S T P B. rewrite (poll_dispatch w F S).
  unfold dispatchWorld. cbv zeta. cbn [client afterRequest]. rewrite B.
  unfold try_catch, routeResponse. rewrite T. cbn [isStr String.eqb Ascii.eqb Bool.eqb].
  unfold _handleIce, adoptStatus, bind, getClient, afterRequest. cbn [client].
  rewrite P.
  destruct (Response.candidates r);
    destruct (isStr (status (client w)) "connected") eqn:C;
    cbn; rewrite C; reflexivity.
Qed.

Definition lateIceWorld : World := worldOf waitingClient [Body iceResponse] [].

Lemma late_candidates_are_dropped_witness :
  _poll lateIceWorld =
  (Ret tt,
   {| client := set_status (Some "wait_answer") waitingClient;
      trace := [Fetch (pollRequest waitingClient); Await waitingClient];
      fetchInbox := []; rtcInbox := []; timers := 1 |}).
Proof.
  vm_compute.
  exact (@late_candidates_are_dropped lateIceWorld iceResponse []
           eq_refl eq_refl eq_refl eq_refl eq_refl).
Defined.

(** * The [id] of the client *)

Lemma exec_grows (s : Step) (w : World) :
  registerCalls (trace w) <= registerCalls (trace (exec s w)).
Proof.
  destruct s; cbn [exec trace]; try apply anyTrace_grows;
    try match goal with |- rel anyTrace ?w0 (snd (?m ?w0)) =>
      assert (S : stable anyTrace m) by stable_ops any_side; exact (S w0)
    end.
  apply (rel_refl anyTrace).
Qed.

Lemma exec_keeps_id (s : Step) (w : World) :
  id (client (exec s w)) = id (client w) \/
  registerCalls (trace w) < registerCalls (trace (exec s w)).
Proof.
  destruct s; cbn [exec client];
    try (left;
         match goal with |- id (client (snd (?m ?w0))) = _ =>
           assert (S : stable (keeps id) m) by keeps_ops; exact (keeps_rel (S w0))
         end).
  - right. apply register_calls.
  - apply poll_keeps_or_registers. intros r. keeps_ops.
  - left. reflexivity.
Qed.

Lemma run_grows (steps : list Step) (w : World) :
  registerCalls (trace w) <= registerCalls (trace (run steps w)).
Proof.
  revert w. induction steps as [|s steps IH]; intros w; simpl; [lia|].
  pose proof (exec_grows s w). pose proof (IH (exec s w)). lia.
Qed.

(** X21.  The [id] changes only by registration.  Over any sequence of
    calls, ticks and callbacks in which no registration request is sent,
    neither by [register] nor by the automatic re-registration of a tick,
    the [id] of the client stays what it was: no other response and no
    other operation writes it. *)
Theorem id_changes_only_by_registration (steps : list Step) (w : World) :
  registerCalls (trace (run steps w)) = registerCalls (trace w) ->
  id (client (run steps w)) = id (client w).
Proof.
  revert w. induction steps as [|s steps IH]; intros w H; simpl in *; [reflexivity|].
  pose proof (exec_grows s w) as G1.
  pose proof (run_grows steps (exec s w)) as G2.
  destruct (exec_keeps_id s w) as [K | L]; [| lia].
  rewrite IH by lia. exact K.
Qed.

(** A session without registration: a connected client loses its
    connection, is sent back to [wait_offer] and disconnects. *)
Definition recoverySession : list Step :=
  [ ConnectionState "failed";
    Settled [Body (reply true (Some "wait_offer") None)] []; Tick;
    CallDisconnect ].

Lemma id_changes_only_by_registration_witness :
  id (client (run recoverySession (worldOf connectedClient [] []))) = Some "u1".
Proof.
  vm_compute.
  exact (@id_changes_only_by_registration recoverySession (worldOf connectedClient [] [])
           eq_refl).
Defined.
